(** * RGB-D sensor (drake/systems/sensors/rgbd_sensor.cc)

    A shallow embedding of [RgbdSensor] and [RgbdSensorDiscrete] and the
    properties of their outputs, construction diagnostics and depth
    quantisation. *)

From Stdlib Require Import ZArith QArith Qround Qabs Qpower Qminmax Lia Lqa.
From Stdlib Require Floats.SpecFloat.
From stdpp Require Import list strings.

Local Open Scope Z_scope.

(** ** Binary floating point

    The sensor computes with C++ [float] (binary32) and [double] (binary64).
    A value is a NaN, an infinity or a finite number kept as an exact
    rational; every operation computes the exact result and rounds it to
    the nearest value of the destination format, ties to even.  The sign of
    zero is not represented: the sensor never divides by a variable and
    never inspects the sign bit, so [+0] and [-0] are indistinguishable in
    everything modelled here. *)

Module Fp.

Inductive fp : Type :=
| NaN
| Inf (neg : bool)
| Fin (q : Q).

(** A format: the precision in bits, the exponent of the smallest
    subnormal, and the exponent bounding all finite values ([|x| < 2^emax]). *)
Record format : Type := Format { prec : Z; emin : Z; emax : Z }.

Definition binary32 : format := Format 24 (-149) 128.
Definition binary64 : format := Format 53 (-1074) 1024.

Definition pow2 (e : Z) : Q := Qpower 2%Q e.

(** [ilog2 q] for [q > 0]: the [l] with [2^l <= q < 2^(l+1)]. *)
Definition ilog2 (q : Q) : Z :=
  let a := Qnum q in
  let b := Zpos (Qden q) in
  let d := Z.log2 a - Z.log2 b in
  if Qle_bool (pow2 d) q then d else d - 1.

(** Round to the nearest integer, ties to even. *)
Definition rne (q : Q) : Z :=
  let f := Qfloor q in
  match Qcompare (q - inject_Z f)%Q (1 # 2)%Q with
  | Lt => f
  | Gt => f + 1
  | Eq => if Z.even f then f else f + 1
  end.

(** Round a rational to the format: to the nearest multiple of the unit in
    the last place of its binade ([2^e] for the exponent [e] below),
    overflowing to an infinity. *)
Definition round_exponent (f : format) (q : Q) : Z :=
  Z.max (ilog2 (Qabs q) + 1 - prec f) (emin f).

Definition round_value (f : format) (q : Q) : Q :=
  (inject_Z (rne (q / pow2 (round_exponent f q))) * pow2 (round_exponent f q))%Q.

Definition round (f : format) (q : Q) : fp :=
  if Qeq_bool q 0%Q then Fin 0%Q
  else if Qle_bool (pow2 (emax f)) (Qabs (round_value f q))
  then Inf (negb (Qle_bool 0%Q q))
  else Fin (Qred (round_value f q)).

(** The finite values of a format. *)
Definition representable (f : format) (q : Q) : Prop :=
  exists m e : Z,
    (q == inject_Z m * pow2 e)%Q /\ Z.abs m < 2 ^ prec f /\ emin f <= e /\
    (Qabs q < pow2 (emax f))%Q.

Definition is_format (f : format) (x : fp) : Prop :=
  match x with
  | Fin q => representable f q
  | _ => True
  end.

(** Conversions. *)
Definition of_Z (f : format) (z : Z) : fp := round f (inject_Z z).

Definition convert (f : format) (x : fp) : fp :=
  match x with
  | Fin q => round f q
  | _ => x
  end.

(** Arithmetic. *)
Definition sign_neg (q : Q) : bool := negb (Qle_bool 0%Q q).

Definition add (f : format) (x y : fp) : fp :=
  match x, y with
  | NaN, _ | _, NaN => NaN
  | Inf a, Inf b => if Bool.eqb a b then Inf a else NaN
  | Inf a, Fin _ => Inf a
  | Fin _, Inf b => Inf b
  | Fin p, Fin q => round f (p + q)%Q
  end.

Definition mul (f : format) (x y : fp) : fp :=
  match x, y with
  | NaN, _ | _, NaN => NaN
  | Inf a, Inf b => Inf (xorb a b)
  | Inf a, Fin q => if Qeq_bool q 0%Q then NaN else Inf (xorb a (sign_neg q))
  | Fin p, Inf b => if Qeq_bool p 0%Q then NaN else Inf (xorb (sign_neg p) b)
  | Fin p, Fin q => round f (p * q)%Q
  end.

Definition div (f : format) (x y : fp) : fp :=
  match x, y with
  | NaN, _ | _, NaN => NaN
  | Inf _, Inf _ => NaN
  | Inf a, Fin q => Inf (xorb a (sign_neg q))
  | Fin _, Inf _ => Fin 0%Q
  | Fin p, Fin q =>
      if Qeq_bool q 0%Q
      then (if Qeq_bool p 0%Q then NaN else Inf (sign_neg p))
      else round f (p / q)%Q
  end.

(** Comparisons: every comparison with a NaN is false, except [!=]. *)
Definition lt (x y : fp) : bool :=
  match x, y with
  | NaN, _ | _, NaN => false
  | Inf a, Inf b => a && negb b
  | Inf a, Fin _ => a
  | Fin _, Inf b => negb b
  | Fin p, Fin q => negb (Qle_bool q p)
  end.

Definition gt (x y : fp) : bool := lt y x.

Definition eq (x y : fp) : bool :=
  match x, y with
  | NaN, _ | _, NaN => false
  | Inf a, Inf b => Bool.eqb a b
  | Fin p, Fin q => Qeq_bool p q
  | _, _ => false
  end.

Definition ne (x y : fp) : bool := negb (eq x y).

Definition le (x y : fp) : bool :=
  match x, y with
  | NaN, _ | _, NaN => false
  | _, _ => negb (lt y x)
  end.

(** Truncation toward zero. *)
Definition Qtrunc (q : Q) : Z := Z.quot (Qnum q) (Zpos (Qden q)).

(** [static_cast<uint16_t>(double)]: the value is truncated toward zero;
    the conversion is undefined ([None]) unless the truncated value fits. *)
Definition to_uint16 (x : fp) : option Z :=
  match x with
  | Fin q =>
      let t := Qtrunc q in
      if (0 <=? t) && (t <=? 65535) then Some t else None
  | _ => None
  end.

(** The value of a float of the Standard Library's IEEE 754 specification,
    to compare its operations with the ones above. *)
Definition of_spec_float (x : SpecFloat.spec_float) : fp :=
  match x with
  | SpecFloat.S754_zero _ => Fin 0%Q
  | SpecFloat.S754_infinity s => Inf s
  | SpecFloat.S754_nan => NaN
  | SpecFloat.S754_finite s m e =>
      Fin (Qred (inject_Z (if s then Zneg m else Zpos m) * pow2 e)%Q)
  end.

(** [std::min(a, b)]: [(b < a) ? b : a]. *)
Definition std_min (a b : fp) : fp := if lt b a then b else a.

End Fp.



Export Fp.

(** ** Images *)

Module Image.

(** Modelled from the spec: the image buffers, [Image<kPixelType>] of
    drake/systems/sensors/image.h, which is not among the sources: a width
    and a height fixed at construction and one pixel per position, stored
    row by row.  [at_ img x y] is [img.at(x, y)]; outside the image it is
    undefined ([None]). *)

Record t (P : Type) : Type := Make { width : Z; height : Z; data : list P }.
Arguments Make {P} _ _ _.
Arguments width {P} _.
Arguments height {P} _.
Arguments data {P} _.

(** [Image(width, height)]: every pixel starts at the zero value. *)
Definition new {P} (zero : P) (w h : Z) : t P :=
  Make w h (replicate (Z.to_nat (w * h)) zero).

Definition index {P} (img : t P) (x y : Z) : option nat :=
  if (0 <=? x) && (x <? width img) && (0 <=? y) && (y <? height img)
  then Some (Z.to_nat (x + y * width img))
  else None.

Definition at_ {P} (img : t P) (x y : Z) : option P :=
  i ← index img x y; data img !! i.

Definition set_at {P} (img : t P) (x y : Z) (v : P) : option (t P) :=
  i ← index img x y;
  if decide (i < length (data img))%nat
  then Some (Make (width img) (height img) (<[i:=v]> (data img)))
  else None.

Definition wf {P} (img : t P) : Prop :=
  0 <= width img /\ 0 <= height img /\
  length (data img) = Z.to_nat (width img * height img).

End Image.

Definition ImageRgba8U : Type := Image.t (Z * Z * Z * Z).
Definition ImageDepth32F : Type := Image.t fp.
Definition ImageDepth16U : Type := Image.t Z.
Definition ImageLabel16I : Type := Image.t Z.

(** ** Camera model (drake/geometry/render, drake/systems/sensors/camera_info.h) *)

(** [geometry::FrameId]: an identifier compared by value. *)
Definition FrameId : Type := Z.

(** Modelled from the spec: the camera intrinsics ([CameraInfo]) and the
    render camera specs of drake/geometry/render, whose headers are not
    among the sources: sizes as [int]s, focal lengths and principal point
    as [double]s, the clipping and depth ranges, and the pose of the sensor
    in the camera body. *)
Record CameraInfo : Type := {
  width : Z;
  height : Z;
  focal_x : fp;
  focal_y : fp;
  center_x : fp;
  center_y : fp
}.

Record ClippingRange : Type := { near : fp; far : fp }.

Record DepthRange : Type := { min_depth : fp; max_depth : fp }.

Module RenderCameraCore.
Record t (T : Type) : Type := Make {
  renderer_name : string;
  intrinsics : CameraInfo;
  clipping : ClippingRange;
  sensor_pose_in_camera_body : T
}.
Arguments Make {T} _ _ _ _.
Arguments renderer_name {T} _.
Arguments intrinsics {T} _.
Arguments clipping {T} _.
Arguments sensor_pose_in_camera_body {T} _.
End RenderCameraCore.

Module ColorRenderCamera.
Record t (T : Type) : Type := Make {
  core : RenderCameraCore.t T;
  show_window : bool
}.
Arguments Make {T} _ _.
Arguments core {T} _.
Arguments show_window {T} _.
End ColorRenderCamera.

Module DepthRenderCamera.
Record t (T : Type) : Type := Make {
  core : RenderCameraCore.t T;
  depth_range : DepthRange
}.
Arguments Make {T} _ _.
Arguments core {T} _.
Arguments depth_range {T} _.
End DepthRenderCamera.

(** The "simple" camera properties handed to the render calls. *)
Module CameraProperties.
Record t : Type := Make {
  width : Z;
  height : Z;
  fov_y : fp;
  renderer_name : string
}.
End CameraProperties.

Module DepthCameraProperties.
Record t : Type := Make {
  width : Z;
  height : Z;
  fov_y : fp;
  renderer_name : string;
  z_near : fp;
  z_far : fp
}.
End DepthCameraProperties.

(** What the sensor uses from headers that are not part of this
    development: the rigid transforms of drake/math ([operator*],
    [translation()], [rotation().ToQuaternion()]), the world frame id of
    [SceneGraph] and [CameraInfo::fov_y()]. *)
Class DrakeLib (T : Type) : Type := {
  Translation3d : Type;
  Quaterniond : Type;
  compose : T -> T -> T;
  translation : T -> Translation3d;
  rotation_ToQuaternion : T -> Quaterniond;
  world_frame_id : FrameId;
  fov_y : CameraInfo -> fp
}.

Declare Scope transform_scope.
Delimit Scope transform_scope with X.
Infix "*" := compose : transform_scope.

(** ** Evaluation effects

    A calculation either returns or fails; next to its outcome it leaves
    the list of calls it made on its collaborators, in order. *)

Inductive Failure : Type :=
| InputPortNotConnected (name : string)
| CollaboratorError (what : string)
| UndefinedConversion.

Inductive Outcome (A : Type) : Type :=
| Ok (a : A)
| Throw (e : Failure).
Arguments Ok {A} _.
Arguments Throw {A} _.

#[export] Instance Outcome_ret : MRet Outcome := fun A a => Ok a.
#[export] Instance Outcome_bind : MBind Outcome := fun A B f m =>
  match m with
  | Ok a => f a
  | Throw e => Throw e
  end.
#[export] Instance Outcome_fmap : FMap Outcome := fun A B f m =>
  match m with
  | Ok a => Ok (f a)
  | Throw e => Throw e
  end.

Inductive Event (T : Type) : Type :=
| ReadInputPort (name : string)
| CallX_WF (frame : FrameId)
| CallRenderColorImage (camera : CameraProperties.t) (parent : FrameId)
    (X_PC : T) (show_window : bool)
| CallRenderDepthImage (camera : DepthCameraProperties.t) (parent : FrameId)
    (X_PC : T)
| CallRenderLabelImage (camera : CameraProperties.t) (parent : FrameId)
    (X_PC : T) (show_window : bool).
Arguments ReadInputPort {T} _.
Arguments CallX_WF {T} _.
Arguments CallRenderColorImage {T} _ _ _ _.
Arguments CallRenderDepthImage {T} _ _ _.
Arguments CallRenderLabelImage {T} _ _ _ _.

Record Run (T A : Type) : Type := MkRun {
  calls : list (Event T);
  outcome : Outcome A
}.
Arguments MkRun {T A} _ _.
Arguments calls {T A} _.
Arguments outcome {T A} _.

#[export] Instance Run_ret {T} : MRet (Run T) := fun A a => MkRun [] (Ok a).
#[export] Instance Run_bind {T} : MBind (Run T) := fun A B f m =>
  match outcome m with
  | Ok a => MkRun (calls m ++ calls (f a)) (outcome (f a))
  | Throw e => MkRun (calls m) (Throw e)
  end.

(** One call on a collaborator: it is recorded, and its outcome is the
    collaborator's. *)
Definition call {T A} (ev : Event T) (result : Outcome A) : Run T A :=
  MkRun [ev] result.

(** ** The geometry query object and the evaluation context *)

(** Modelled from the spec: the geometry query service, the methods of
    [geometry::QueryObject<double>] the sensor calls.  The render methods
    fill the image they are handed; any of them can fail, and the failure
    reaches the caller as it is. *)
Record QueryObject (T : Type) : Type := {
  X_WF : FrameId -> Outcome T;
  RenderColorImage :
    CameraProperties.t -> FrameId -> T -> bool -> ImageRgba8U ->
    Outcome ImageRgba8U;
  RenderDepthImage :
    DepthCameraProperties.t -> FrameId -> T -> ImageDepth32F ->
    Outcome ImageDepth32F;
  RenderLabelImage :
    CameraProperties.t -> FrameId -> T -> bool -> ImageLabel16I ->
    Outcome ImageLabel16I
}.
Arguments X_WF {T} _ _.
Arguments RenderColorImage {T} _ _ _ _ _ _.
Arguments RenderDepthImage {T} _ _ _ _ _.
Arguments RenderLabelImage {T} _ _ _ _ _ _.

(** [Context<double>], as far as the sensor reads it: the value of the
    "geometry_query" input port, absent when the port is not connected. *)
Record Context (T : Type) : Type := {
  geometry_query : option (QueryObject T)
}.
Arguments geometry_query {T} _.

(** [rendering::PoseVector<double>]: a translation and a quaternion. *)
Record PoseVector (T : Type) `{DrakeLib T} : Type := {
  get_translation : Translation3d;
  get_rotation : Quaterniond
}.
Arguments get_translation {T _} _.
Arguments get_rotation {T _} _.

(** ** Construction diagnostics and declared ports *)

(** The two warnings the constructor can log, with the values they print. *)
Inductive Diagnostic : Type :=
| WarnComplexCamera
    (color_focal_x color_focal_y color_center_x color_center_y : fp)
    (depth_focal_x depth_focal_y depth_center_x depth_center_y : fp)
| WarnMaxDepth (max_depth : fp) (kMaxValidDepth16UInM : fp).

(** The model value an output port or a hold is allocated from. *)
Inductive AbstractValue (T : Type) `{DrakeLib T} : Type :=
| ValueImageRgba8U (img : ImageRgba8U)
| ValueImageDepth32F (img : ImageDepth32F)
| ValueImageDepth16U (img : ImageDepth16U)
| ValueImageLabel16I (img : ImageLabel16I)
| ValuePoseVector.
Arguments ValueImageRgba8U {T _} _.
Arguments ValueImageDepth32F {T _} _.
Arguments ValueImageDepth16U {T _} _.
Arguments ValueImageLabel16I {T _} _.
Arguments ValuePoseVector {T _}.

(** The calculators an output port can be declared with. *)
Inductive Calc : Type :=
| CalcColorImage_
| CalcDepthImage32F_
| CalcDepthImage16U_
| CalcLabelImage_
| CalcX_WB_.

Record OutputPortDecl (T : Type) `{DrakeLib T} : Type := {
  port_name : string;
  port_model : AbstractValue T;
  port_calc : Calc
}.
Arguments Build_OutputPortDecl {T _} _ _ _.
Arguments port_name {T _} _.
Arguments port_model {T _} _.
Arguments port_calc {T _} _.

(** ** The continuous sensor *)

Record RgbdSensor (T : Type) `{DrakeLib T} : Type := {
  parent_frame_id_ : FrameId;
  color_camera_ : ColorRenderCamera.t T;
  depth_camera_ : DepthRenderCamera.t T;
  X_PB_ : T;
  input_ports_ : list string;
  output_ports_ : list (OutputPortDecl T)
}.
Arguments Build_RgbdSensor {T _} _ _ _ _ _ _.
Arguments parent_frame_id_ {T _} _.
Arguments color_camera_ {T _} _.
Arguments depth_camera_ {T _} _.
Arguments X_PB_ {T _} _.
Arguments input_ports_ {T _} _.
Arguments output_ports_ {T _} _.

(** [for (int i = 0; i < n; i++) body], over a state that an iteration can
    leave undefined. *)
Definition for_int {St : Type} (n : Z) (body : Z -> St -> option St) (s : St)
  : option St :=
  foldl (fun acc i => acc ≫= body (Z.of_nat i)) (Some s) (seq 0 (Z.to_nat n)).

(** [const float kDepth16UOverflowDistance =
      std::numeric_limits<uint16_t>::max() / 1000.;] *)
Definition kDepth16UOverflowDistance : fp :=
  convert binary32 (div binary64 (of_Z binary64 65535) (Fin 1000)).

(** The body of the inner loop of [ConvertDepth32FTo16U] for one pixel:
    [dist = std::min(d32.at(w, h)[0], kDepth16UOverflowDistance)], then
    [static_cast<uint16_t>(dist * 1000)]. *)
Definition Depth32FTo16U_pixel (pixel : fp) : option Z :=
  let dist := convert binary64 (std_min pixel kDepth16UOverflowDistance) in
  to_uint16 (mul binary64 dist (of_Z binary64 1000)).

Definition ConvertDepth32FTo16U (d32 : ImageDepth32F) (d16 : ImageDepth16U)
  : option ImageDepth16U :=
  for_int (Image.width d16) (fun w d16 =>
    for_int (Image.height d16) (fun h d16 =>
      pixel ← Image.at_ d32 w h;
      mm ← Depth32FTo16U_pixel pixel;
      Image.set_at d16 w h mm) d16) d16.

Section Sensor.
Context {T : Type} `{DrakeLib T}.
Local Open Scope transform_scope.

(** [const float kMaxValidDepth16UInM =
      (std::numeric_limits<uint16_t>::max() - 1) / 1000.;] *)
Definition kMaxValidDepth16UInM : fp :=
  convert binary32 (div binary64 (of_Z binary64 (65535 - 1)) (Fin 1000)).

(** [intrinsics.center != intrinsics.size / 2.0 + 0.5] *)
Definition off_center (center : fp) (size : Z) : bool :=
  ne center (add binary64 (div binary64 (of_Z binary64 size) (Fin 2)) (Fin (1 # 2))).

Definition complex_intrinsics (color_intrinsics depth_intrinsics : CameraInfo)
  : bool :=
  ne (focal_x color_intrinsics) (focal_y color_intrinsics) ||
  off_center (center_x color_intrinsics) (width color_intrinsics) ||
  off_center (center_y color_intrinsics) (height color_intrinsics) ||
  ne (focal_x depth_intrinsics) (focal_y depth_intrinsics) ||
  off_center (center_x depth_intrinsics) (width depth_intrinsics) ||
  off_center (center_y depth_intrinsics) (height depth_intrinsics).

(** [RgbdSensor::RgbdSensor(parent_id, X_PB, color_camera, depth_camera)]:
    the sensor and the warnings logged while it is built, in order. *)
Definition RgbdSensor_new (parent_id : FrameId) (X_PB : T)
    (color_camera : ColorRenderCamera.t T)
    (depth_camera : DepthRenderCamera.t T)
  : RgbdSensor T * list Diagnostic :=
  let color_intrinsics :=
    RenderCameraCore.intrinsics (ColorRenderCamera.core color_camera) in
  let depth_intrinsics :=
    RenderCameraCore.intrinsics (DepthRenderCamera.core depth_camera) in
  let log1 :=
    if complex_intrinsics color_intrinsics depth_intrinsics
    then [WarnComplexCamera
            (focal_x color_intrinsics) (focal_y color_intrinsics)
            (center_x color_intrinsics) (center_y color_intrinsics)
            (focal_x depth_intrinsics) (focal_y depth_intrinsics)
            (center_x depth_intrinsics) (center_y depth_intrinsics)]
    else [] in
  let color_image :=
    Image.new (0, 0, 0, 0) (width color_intrinsics) (height color_intrinsics) in
  let depth32 :=
    Image.new (Fin 0) (width depth_intrinsics) (height depth_intrinsics) in
  let depth16 :=
    Image.new 0 (width depth_intrinsics) (height depth_intrinsics) in
  let label_image :=
    Image.new 0 (width color_intrinsics) (height color_intrinsics) in
  let max_depth :=
    max_depth (DepthRenderCamera.depth_range depth_camera) in
  let log2 :=
    if gt max_depth (convert binary64 kMaxValidDepth16UInM)
    then [WarnMaxDepth max_depth kMaxValidDepth16UInM]
    else [] in
  (Build_RgbdSensor parent_id color_camera depth_camera X_PB
     ["geometry_query"%string]
     [Build_OutputPortDecl "color_image" (ValueImageRgba8U color_image)
        CalcColorImage_;
      Build_OutputPortDecl "depth_image_32f" (ValueImageDepth32F depth32)
        CalcDepthImage32F_;
      Build_OutputPortDecl "depth_image_16u" (ValueImageDepth16U depth16)
        CalcDepthImage16U_;
      Build_OutputPortDecl "label_image" (ValueImageLabel16I label_image)
        CalcLabelImage_;
      Build_OutputPortDecl "X_WB" ValuePoseVector CalcX_WB_],
   log1 ++ log2).

(** Modelled from the spec: [InputPort::Eval] of the dataflow host, for
    the query input: evaluation fails when nothing is connected to the
    port. *)
Definition query_object_input_port_Eval (context : Context T)
  : Outcome (QueryObject T) :=
  match geometry_query context with
  | Some query_object => Ok query_object
  | None => Throw (InputPortNotConnected "geometry_query")
  end.

(** [get_query_object(context)] *)
Definition get_query_object (context : Context T) : Run T (QueryObject T) :=
  call (ReadInputPort "geometry_query") (query_object_input_port_Eval context).

Definition CalcColorImage (self : RgbdSensor T) (context : Context T)
    (color_image : ImageRgba8U) : Run T ImageRgba8U :=
  query_object ← get_query_object context;
  let intrinsics :=
    RenderCameraCore.intrinsics (ColorRenderCamera.core (color_camera_ self)) in
  let simple_camera :=
    CameraProperties.Make (width intrinsics) (height intrinsics)
      (fov_y intrinsics)
      (RenderCameraCore.renderer_name
         (ColorRenderCamera.core (color_camera_ self))) in
  let X_PC :=
    X_PB_ self *
    RenderCameraCore.sensor_pose_in_camera_body
      (ColorRenderCamera.core (color_camera_ self)) in
  let show := ColorRenderCamera.show_window (color_camera_ self) in
  call (CallRenderColorImage simple_camera (parent_frame_id_ self) X_PC show)
    (RenderColorImage query_object simple_camera (parent_frame_id_ self) X_PC
       show color_image).

Definition CalcDepthImage32F (self : RgbdSensor T) (context : Context T)
    (depth_image : ImageDepth32F) : Run T ImageDepth32F :=
  query_object ← get_query_object context;
  let intrinsics :=
    RenderCameraCore.intrinsics (DepthRenderCamera.core (depth_camera_ self)) in
  let simple_camera :=
    DepthCameraProperties.Make (width intrinsics) (height intrinsics)
      (fov_y intrinsics)
      (RenderCameraCore.renderer_name
         (DepthRenderCamera.core (depth_camera_ self)))
      (min_depth (DepthRenderCamera.depth_range (depth_camera_ self)))
      (max_depth (DepthRenderCamera.depth_range (depth_camera_ self))) in
  let X_PC :=
    X_PB_ self *
    RenderCameraCore.sensor_pose_in_camera_body
      (DepthRenderCamera.core (depth_camera_ self)) in
  call (CallRenderDepthImage simple_camera (parent_frame_id_ self) X_PC)
    (RenderDepthImage query_object simple_camera (parent_frame_id_ self) X_PC
       depth_image).

Definition CalcDepthImage16U (self : RgbdSensor T) (context : Context T)
    (depth_image : ImageDepth16U) : Run T ImageDepth16U :=
  let depth32 :=
    Image.new (Fin 0) (Image.width depth_image) (Image.height depth_image) in
  depth32 ← CalcDepthImage32F self context depth32;
  MkRun []
    (match ConvertDepth32FTo16U depth32 depth_image with
     | Some d16 => Ok d16
     | None => Throw UndefinedConversion
     end).

Definition CalcLabelImage (self : RgbdSensor T) (context : Context T)
    (label_image : ImageLabel16I) : Run T ImageLabel16I :=
  query_object ← get_query_object context;
  let intrinsics :=
    RenderCameraCore.intrinsics (ColorRenderCamera.core (color_camera_ self)) in
  let simple_camera :=
    CameraProperties.Make (width intrinsics) (height intrinsics)
      (fov_y intrinsics)
      (RenderCameraCore.renderer_name
         (ColorRenderCamera.core (color_camera_ self))) in
  let X_PC :=
    X_PB_ self *
    RenderCameraCore.sensor_pose_in_camera_body
      (ColorRenderCamera.core (color_camera_ self)) in
  let show := ColorRenderCamera.show_window (color_camera_ self) in
  call (CallRenderLabelImage simple_camera (parent_frame_id_ self) X_PC show)
    (RenderLabelImage query_object simple_camera (parent_frame_id_ self) X_PC
       show label_image).

(** [set_translation] then [set_rotation] on the pose vector. *)
Definition set_pose (pose_vector : PoseVector T) (X : T) : PoseVector T :=
  {| get_translation := translation X;
     get_rotation := rotation_ToQuaternion X |}.

Definition CalcX_WB (self : RgbdSensor T) (context : Context T)
    (pose_vector : PoseVector T) : Run T (PoseVector T) :=
  X_WB ←
    (if decide (parent_frame_id_ self = world_frame_id)
     then mret (X_PB_ self)
     else
       query_object ← get_query_object context;
       X_WP ← call (CallX_WF (parent_frame_id_ self))
                (X_WF query_object (parent_frame_id_ self));
       mret (X_WP * X_PB_ self));
  mret (set_pose pose_vector X_WB).

(** Modelled from the spec: [ComputeBodyWorldPose(parent_frame_id,
    X_parent_to_body, geometry_query)] of the frame pipeline, which the
    source does not have as a function of its own: the parent-to-body
    transform itself for the world frame, and otherwise the parent frame's
    world pose composed with it. *)
Definition ComputeBodyWorldPose (parent_frame_id : FrameId)
    (X_parent_to_body : T) (geometry_query : QueryObject T) : Outcome T :=
  if decide (parent_frame_id = world_frame_id)
  then Ok X_parent_to_body
  else
    parent_world_pose ← X_WF geometry_query parent_frame_id;
    Ok (parent_world_pose * X_parent_to_body).

End Sensor.

(** ** The discrete sensor: the sensor behind zero-order holds *)

Inductive System (T : Type) `{DrakeLib T} : Type :=
| SystemRgbdSensor (camera : RgbdSensor T)
| SystemZeroOrderHold (period_sec : fp) (model_value : AbstractValue T).
Arguments SystemRgbdSensor {T _} _.
Arguments SystemZeroOrderHold {T _} _ _.

(** Modelled from the spec: the sub-graph composition of the dataflow
    host ([DiagramBuilder]), as far as the constructor uses it: systems
    added in order, connections, and exported ports with their names.
    A port names its system by the position at which it was added. *)
Inductive InputPortRef : Type :=
| SensorQueryObjectInput (system : nat)
| HoldInput (system : nat).

Inductive OutputPortRef : Type :=
| SensorOutput (system : nat) (name : string)
| HoldOutput (system : nat).

Record DiagramBuilder (T : Type) `{DrakeLib T} : Type := {
  systems : list (System T);
  connections : list (OutputPortRef * InputPortRef);
  exported_inputs : list (string * InputPortRef);
  exported_outputs : list (string * OutputPortRef)
}.
Arguments Build_DiagramBuilder {T _} _ _ _ _.
Arguments systems {T _} _.
Arguments connections {T _} _.
Arguments exported_inputs {T _} _.
Arguments exported_outputs {T _} _.

Record RgbdSensorDiscrete (T : Type) `{DrakeLib T} : Type := {
  camera_ : nat;
  period_ : fp;
  query_object_port_ : nat;
  output_port_color_image_ : nat;
  output_port_depth_image_32F_ : nat;
  output_port_depth_image_16U_ : nat;
  output_port_label_image_ : option nat;
  X_WB_output_port_ : nat;
  diagram : DiagramBuilder T
}.
Arguments Build_RgbdSensorDiscrete {T _} _ _ _ _ _ _ _ _ _.
Arguments camera_ {T _} _.
Arguments period_ {T _} _.
Arguments query_object_port_ {T _} _.
Arguments output_port_color_image_ {T _} _.
Arguments output_port_depth_image_32F_ {T _} _.
Arguments output_port_depth_image_16U_ {T _} _.
Arguments output_port_label_image_ {T _} _.
Arguments X_WB_output_port_ {T _} _.
Arguments diagram {T _} _.

Section Discrete.
Context {T : Type} `{DrakeLib T}.

(** Building threads the builder and can fail. *)
Record Build (A : Type) : Type := MkBuild {
  run_build : DiagramBuilder T -> Outcome (A * DiagramBuilder T)
}.
Arguments MkBuild {A} _.
Arguments run_build {A} _ _.

#[local] Instance Build_ret : MRet Build := fun A a => MkBuild (fun b => Ok (a, b)).
#[local] Instance Build_bind : MBind Build := fun A B f m =>
  MkBuild (fun b =>
    match run_build m b with
    | Ok (a, b') => run_build (f a) b'
    | Throw e => Throw e
    end).

Definition AddSystem (sys : System T) : Build nat :=
  MkBuild (fun b =>
    Ok (length (systems b),
        Build_DiagramBuilder (systems b ++ [sys]) (connections b)
          (exported_inputs b) (exported_outputs b))).

(** Modelled from the spec: the constructor of [ZeroOrderHold]
    (drake/systems/primitives/zero_order_hold.h), of which the spec says
    only that a period that is not strictly positive is a fatal
    construction-time error. *)
Definition ZeroOrderHold_new (period_sec : fp) (model_value : AbstractValue T)
  : Outcome (System T) :=
  if gt period_sec (Fin 0)
  then Ok (SystemZeroOrderHold period_sec model_value)
  else Throw (CollaboratorError "ZeroOrderHold: period_sec > 0").

(** [builder.AddSystem<ZeroOrderHold>(period, model_value)] *)
Definition AddZeroOrderHold (period_sec : fp) (model_value : AbstractValue T)
  : Build nat :=
  MkBuild (fun b =>
    match ZeroOrderHold_new period_sec model_value with
    | Ok zoh => run_build (AddSystem zoh) b
    | Throw e => Throw e
    end).

Definition Connect (src : OutputPortRef) (dest : InputPortRef) : Build unit :=
  MkBuild (fun b =>
    Ok (tt,
        Build_DiagramBuilder (systems b) (connections b ++ [(src, dest)])
          (exported_inputs b) (exported_outputs b))).

Definition ExportInput (input : InputPortRef) (name : string) : Build nat :=
  MkBuild (fun b =>
    Ok (length (exported_inputs b),
        Build_DiagramBuilder (systems b) (connections b)
          (exported_inputs b ++ [(name, input)]) (exported_outputs b))).

Definition ExportOutput (output : OutputPortRef) (name : string) : Build nat :=
  MkBuild (fun b =>
    Ok (length (exported_outputs b),
        Build_DiagramBuilder (systems b) (connections b)
          (exported_inputs b) (exported_outputs b ++ [(name, output)]))).

(** [builder.BuildInto(this)]: the diagram is what the builder holds. *)
Definition BuildInto : Build (DiagramBuilder T) :=
  MkBuild (fun b => Ok (b, b)).

(** [camera->color_camera_info()] and [camera->depth_camera_info()] *)
Definition color_camera_info (camera : RgbdSensor T) : CameraInfo :=
  RenderCameraCore.intrinsics (ColorRenderCamera.core (color_camera_ camera)).

Definition depth_camera_info (camera : RgbdSensor T) : CameraInfo :=
  RenderCameraCore.intrinsics (DepthRenderCamera.core (depth_camera_ camera)).

(** The body of the constructor, as steps on the builder. *)
Definition RgbdSensorDiscrete_build (camera : RgbdSensor T) (period : fp)
    (render_label_image : bool) : Build (RgbdSensorDiscrete T) :=
  let color_camera_info := color_camera_info camera in
  let depth_camera_info := depth_camera_info camera in
  camera_ ← AddSystem (SystemRgbdSensor camera);
  query_object_port_ ←
    ExportInput (SensorQueryObjectInput camera_) "geometry_query";
  (* Color image. *)
  let image_color :=
    ValueImageRgba8U
      (Image.new (0, 0, 0, 0) (width color_camera_info)
         (height color_camera_info)) in
  zoh_color ← AddZeroOrderHold period image_color;
  _ ← Connect (SensorOutput camera_ "color_image") (HoldInput zoh_color);
  output_port_color_image_ ←
    ExportOutput (HoldOutput zoh_color) "color_image";
  (* Depth images. *)
  let image_depth_32F :=
    ValueImageDepth32F
      (Image.new (Fin 0) (width depth_camera_info)
         (height depth_camera_info)) in
  zoh_depth_32F ← AddZeroOrderHold period image_depth_32F;
  _ ← Connect (SensorOutput camera_ "depth_image_32f")
        (HoldInput zoh_depth_32F);
  output_port_depth_image_32F_ ←
    ExportOutput (HoldOutput zoh_depth_32F) "depth_image_32f";
  let image_depth_16U :=
    ValueImageDepth16U
      (Image.new 0 (width depth_camera_info) (height depth_camera_info)) in
  zoh_depth_16U ← AddZeroOrderHold period image_depth_16U;
  _ ← Connect (SensorOutput camera_ "depth_image_16u")
        (HoldInput zoh_depth_16U);
  output_port_depth_image_16U_ ←
    ExportOutput (HoldOutput zoh_depth_16U) "depth_image_16u";
  (* Label image. *)
  output_port_label_image_ ←
    (if render_label_image
     then
       let image_label :=
         ValueImageLabel16I
           (Image.new 0 (width color_camera_info)
              (height color_camera_info)) in
       zoh_label ← AddZeroOrderHold period image_label;
       _ ← Connect (SensorOutput camera_ "label_image") (HoldInput zoh_label);
       port ← ExportOutput (HoldOutput zoh_label) "label_image";
       mret (Some port)
     else mret None);
  (* No need to place a ZOH on pose output. *)
  X_WB_output_port_ ← ExportOutput (SensorOutput camera_ "X_WB") "X_WB";
  diagram ← BuildInto;
  mret (Build_RgbdSensorDiscrete camera_ period query_object_port_
          output_port_color_image_ output_port_depth_image_32F_
          output_port_depth_image_16U_ output_port_label_image_
          X_WB_output_port_ diagram).

(** [RgbdSensorDiscrete::RgbdSensorDiscrete(camera, period,
    render_label_image)], starting from an empty builder. *)
Definition RgbdSensorDiscrete_new (camera : RgbdSensor T) (period : fp)
    (render_label_image : bool) : Outcome (RgbdSensorDiscrete T) :=
  match run_build (RgbdSensorDiscrete_build camera period render_label_image)
          (Build_DiagramBuilder [] [] [] []) with
  | Ok (discrete, _) => Ok discrete
  | Throw e => Throw e
  end.

(** The exported output port of a given name, if there is one. *)
Definition exported_output (d : RgbdSensorDiscrete T) (name : string)
  : option OutputPortRef :=
  (fun found => snd (snd found)) <$>
    list_find (fun p => fst p = name) (exported_outputs (diagram d)).

End Discrete.

(** ** The specification's formulas, in exact arithmetic *)

(** The depth quantizer of the specification for one pixel:
    [min(float_value, (2^16 - 1) / 1000.0) * 1000], truncated to an
    unsigned 16-bit integer, computed on the exact value of the pixel.
    The minimum of [+inf] and the ceiling is the ceiling; for a NaN, for
    [-inf] and where the truncated value does not fit 16 bits the
    specification leaves the result open ([None]). *)
Definition quantize_spec (pixel : fp) : option Z :=
  let ceiling := ((2 ^ 16 - 1) # 1000)%Q in
  match pixel with
  | Fin x => to_uint16 (Fin (Qmin x ceiling * 1000)%Q)
  | Inf false => to_uint16 (Fin (ceiling * 1000)%Q)
  | _ => None
  end.

(** Modelled from the spec: "its own output re-expressed in meters", the
    step between two quantisations.  A millimetre count becomes the pixel
    of a 32-bit float depth image again: the binary32 nearest to
    [mm / 1000] (what [mm / 1000.0f] computes). *)
Definition meters_of_mm (mm : Z) : fp :=
  div binary32 (of_Z binary32 mm) (Fin 1000).

(** The invariant of the specification on intrinsics: equal focal lengths
    and a principal point at [(width / 2 + 0.5, height / 2 + 0.5)]. *)
Definition radially_symmetric_centered (ci : CameraInfo) : bool :=
  eq (focal_x ci) (focal_y ci) &&
  eq (center_x ci) (Fin (inject_Z (width ci) / 2 + (1 # 2))%Q) &&
  eq (center_y ci) (Fin (inject_Z (height ci) / 2 + (1 # 2))%Q).

(** The range of a C++ [int]. *)
Definition int_range (z : Z) : Prop := - 2 ^ 31 <= z < 2 ^ 31.

Definition is_WarnComplexCamera (d : Diagnostic) : bool :=
  match d with
  | WarnComplexCamera _ _ _ _ _ _ _ _ => true
  | WarnMaxDepth _ _ => false
  end.

Definition is_WarnMaxDepth (d : Diagnostic) : bool :=
  match d with
  | WarnComplexCamera _ _ _ _ _ _ _ _ => false
  | WarnMaxDepth _ _ => true
  end.

(** ** The state of the conversion loops *)

(** Pixel [(x, y)] is visited before iteration [(w, h)]: the loops go
    column by column. *)
Definition visited (w h x y : Z) : Prop := x < w \/ (x = w /\ y < h).

(** The state of the loops at iteration [(w, h)]: every pixel visited so
    far holds its conversion and the others are untouched; or a visited
    pixel has no defined conversion and the state is undefined. *)
Definition loop_inv (d32 : ImageDepth32F) (d16 : ImageDepth16U) (w h : Z)
    (o : option ImageDepth16U) : Prop :=
  match o with
  | Some d =>
      Image.width d = Image.width d16 /\ Image.height d = Image.height d16 /\
      length (Image.data d) = length (Image.data d16) /\
      forall x y, 0 <= x < Image.width d16 -> 0 <= y < Image.height d16 ->
        (visited w h x y ->
         exists pixel mm, Image.at_ d32 x y = Some pixel /\
           Depth32FTo16U_pixel pixel = Some mm /\ Image.at_ d x y = Some mm) /\
        (~ visited w h x y -> Image.at_ d x y = Image.at_ d16 x y)
  | None =>
      exists x y pixel,
        0 <= x < Image.width d16 /\ 0 <= y < Image.height d16 /\
        visited w h x y /\ Image.at_ d32 x y = Some pixel /\
        Depth32FTo16U_pixel pixel = None
  end.

(** ** A concrete setting

    Rigid transforms that are pure translations with integer coordinates
    (the rotation is the identity, its quaternion the unit one), a world
    frame with id 0, and a scene in which frame [f] sits [f] units along
    the x axis. *)

Module Sample.

Definition Shift : Type := (Z * Z * Z)%type.

Definition shift_compose (a b : Shift) : Shift :=
  let '(ax, ay, az) := a in
  let '(bx, by_, bz) := b in
  (ax + bx, ay + by_, az + bz).

#[global] Instance Shift_lib : DrakeLib Shift := {|
  Translation3d := Shift;
  Quaterniond := unit;
  compose := shift_compose;
  translation := fun X => X;
  rotation_ToQuaternion := fun _ => tt;
  world_frame_id := 0;
  fov_y := fun _ => Fin (4 # 5)
|}.

Definition intrinsics : CameraInfo := {|
  width := 4; height := 2;
  focal_x := Fin 3; focal_y := Fin 3;
  center_x := Fin (5 # 2); center_y := Fin (3 # 2)
|}.

Definition skewed_intrinsics : CameraInfo := {|
  width := 4; height := 2;
  focal_x := Fin 3; focal_y := Fin 4;
  center_x := Fin (5 # 2); center_y := Fin (3 # 2)
|}.

Definition core (ci : CameraInfo) (X_BS : Shift) : RenderCameraCore.t Shift :=
  RenderCameraCore.Make "renderer" ci
    {| near := Fin (1 # 100); far := Fin 10 |} X_BS.

Definition color_camera : ColorRenderCamera.t Shift :=
  ColorRenderCamera.Make (core intrinsics (0, 0, 0)) false.

Definition depth_camera (max_depth : fp) : DepthRenderCamera.t Shift :=
  DepthRenderCamera.Make (core intrinsics (0, 0, 0))
    {| min_depth := Fin (1 # 8); max_depth := max_depth |}.

(** A sensor on the world frame and one on frame 1. *)
Definition world_sensor : RgbdSensor Shift :=
  fst (RgbdSensor_new 0 (0, 0, 7) color_camera (depth_camera (Fin 5))).

Definition frame1_sensor : RgbdSensor Shift :=
  fst (RgbdSensor_new 1 (0, 0, 0) color_camera (depth_camera (Fin 5))).

(** The renderer leaves color and label images as they are and paints
    every depth pixel with the distance of the camera from the origin
    along z, in metres plus one eighth. *)
Definition query_object : QueryObject Shift := {|
  X_WF := fun f => Ok (f, 0, 0);
  RenderColorImage := fun _ _ _ _ img => Ok img;
  RenderDepthImage := fun _ _ X img =>
    Ok (Image.Make (Image.width img) (Image.height img)
          (replicate (Z.to_nat (Image.width img * Image.height img))
             (Fin (inject_Z (snd X) + (1 # 8))%Q)));
  RenderLabelImage := fun _ _ _ _ img => Ok img
|}.

Definition connected : Context Shift := {| geometry_query := Some query_object |}.
Definition unconnected : Context Shift := {| geometry_query := None |}.

Definition color_buffer : ImageRgba8U := Image.new (0, 0, 0, 0) 4 2.
Definition depth32_buffer : ImageDepth32F := Image.new (Fin 0) 4 2.
Definition depth16_buffer : ImageDepth16U := Image.new 0 4 2.
Definition label_buffer : ImageLabel16I := Image.new 0 4 2.
Definition pose_buffer : PoseVector Shift :=
  {| get_translation := ((0, 0, 0) : Translation3d); get_rotation := (tt : Quaterniond) |}.

(** A 2 x 1 depth image: 1.5 m and a pixel beyond the 16-bit range. *)
Definition depth_image : ImageDepth32F := Image.Make 2 1 [Fin (3 # 2); Fin 100].

End Sample.

(** ** Reading calls and declared ports *)

(** The label request that corresponds to a color request. *)
Definition relabel {T : Type} (ev : Event T) : Event T :=
  match ev with
  | CallRenderColorImage camera parent X_PC show_window =>
      CallRenderLabelImage camera parent X_PC show_window
  | _ => ev
  end.

Definition is_render {T : Type} (ev : Event T) : bool :=
  match ev with
  | CallRenderColorImage _ _ _ _ | CallRenderDepthImage _ _ _
  | CallRenderLabelImage _ _ _ _ => true
  | _ => false
  end.

Definition is_pose_query {T : Type} (ev : Event T) : bool :=
  match ev with
  | CallX_WF _ => true
  | _ => false
  end.

(** The model value of the output port declared under a name. *)
Definition declared_model {T : Type} `{DrakeLib T} (self : RgbdSensor T)
    (name : string) : option (AbstractValue T) :=
  (fun found => port_model (snd found)) <$>
    list_find (fun decl => port_name decl = name) (output_ports_ self).

(** * Properties *)

(** ** Rounding *)

Section RoundingFacts.
Local Open Scope Q_scope.

Lemma pow2_pos e : 0 < pow2 e.
Proof. apply Qpower_0_lt. reflexivity. Qed.

Lemma pow2_add a b : pow2 (a + b) == pow2 a * pow2 b.
Proof. apply Qpower_plus. discriminate. Qed.

Lemma pow2_sub a b : pow2 (a - b) == pow2 a / pow2 b.
Proof. apply Qpower_minus. discriminate. Qed.

Lemma pow2_of_Z n : (0 <= n)%Z -> pow2 n == inject_Z (2 ^ n).
Proof. intros Hn. unfold pow2. now rewrite Zpower_Qpower. Qed.

Lemma pow2_lt_inv a b : pow2 a < pow2 b -> (a < b)%Z.
Proof. intros H. apply (Qpower_lt_compat_l_inv 2); [exact H | reflexivity]. Qed.

Lemma pow2_le a b : (a <= b)%Z -> pow2 a <= pow2 b.
Proof. intros H. apply Qpower_le_compat_l; [exact H | discriminate]. Qed.

Lemma Qle_bool_false x y : Qle_bool x y = false <-> y < x.
Proof.
  split; intros H.
  - apply Qnot_le_lt. intros Hle. apply Qle_bool_iff in Hle. congruence.
  - destruct (Qle_bool x y) eqn:E; [|reflexivity].
    apply Qle_bool_iff in E. exfalso. exact (Qlt_not_le _ _ H E).
Qed.

Lemma Qeq_bool_false x y : Qeq_bool x y = false <-> ~ x == y.
Proof.
  split; intros H.
  - intros E. apply Qeq_bool_iff in E. congruence.
  - destruct (Qeq_bool x y) eqn:E; [|reflexivity].
    apply Qeq_bool_iff in E. contradiction.
Qed.

(** [ilog2] never overshoots. *)
Lemma ilog2_lower q : 0 < q -> pow2 (ilog2 q) <= q.
Proof.
  intros Hq. unfold ilog2.
  set (d := (Z.log2 (Qnum q) - Z.log2 (Z.pos (Qden q)))%Z).
  destruct (Qle_bool (pow2 d) q) eqn:E.
  - now apply Qle_bool_iff.
  - destruct q as [a b]. cbn [Qnum Qden] in d.
    assert (Ha : (0 < a)%Z).
    { unfold Qlt in Hq. simpl in Hq. lia. }
    pose proof (Z.log2_spec a Ha) as [Ha1 _].
    pose proof (Z.log2_spec (Z.pos b) (Pos2Z.is_pos b)) as [_ Hb2].
    pose proof (Z.log2_nonneg a) as Hla.
    pose proof (Z.log2_nonneg (Z.pos b)) as Hlb.
    (* 2^(d-1) * b <= 2^(log2 a) <= a *)
    apply Qle_trans with (inject_Z (2 ^ Z.log2 a) / inject_Z (2 ^ (Z.log2 (Z.pos b) + 1))).
    + rewrite <- !pow2_of_Z by lia.
      replace (d - 1)%Z with (Z.log2 a - (Z.log2 (Z.pos b) + 1))%Z
        by (unfold d; lia).
      rewrite pow2_sub. apply Qle_refl.
    + apply Qle_shift_div_r.
      * rewrite <- pow2_of_Z by lia. apply pow2_pos.
      * unfold Qle, Qmult, inject_Z. cbn [Qnum Qden].
        rewrite Pos.mul_1_r, !Z.mul_1_r. rewrite <- Z.add_1_r in Hb2.
        apply Z.le_trans with (a * Z.pos b)%Z.
        -- apply Z.mul_le_mono_nonneg_r; lia.
        -- apply Z.mul_le_mono_nonneg_l; lia.
Qed.

Lemma rne_inject_Z q z : q == inject_Z z -> rne q = z.
Proof.
  intros H. unfold rne.
  assert (Hf : Qfloor q = z).
  { rewrite (Qfloor_comp _ _ H). apply Qfloor_Z. }
  rewrite Hf.
  assert (Hc : (q - inject_Z z ?= 1 # 2) = Lt).
  { rewrite H. apply Qlt_alt. unfold Qminus. rewrite Qplus_opp_r. reflexivity. }
  now rewrite Hc.
Qed.

Lemma Qabs_pos_of_nonzero q : ~ q == 0 -> 0 < Qabs q.
Proof.
  intros Hq. destruct (Qlt_le_dec 0 q) as [H|H].
  - rewrite Qabs_pos; [exact H | now apply Qlt_le_weak].
  - rewrite Qabs_neg by exact H.
    apply Qle_lt_or_eq in H. destruct H as [H|H]; [|contradiction].
    apply (Qopp_lt_compat q 0) in H. exact H.
Qed.

Lemma Qabs_inject_Z z : Qabs (inject_Z z) == inject_Z (Z.abs z).
Proof. reflexivity. Qed.

(** A value [m * 2^k] with [|m| < 2^p] lies below [2^(p + k)]. *)
Lemma dyadic_bound q m k p :
  (0 <= p)%Z -> q == inject_Z m * pow2 k -> (Z.abs m < 2 ^ p)%Z ->
  Qabs q < pow2 (p + k).
Proof.
  intros Hp Hq Hm. rewrite Hq, Qabs_Qmult, Qabs_inject_Z.
  rewrite (Qabs_pos (pow2 k)) by (apply Qlt_le_weak, pow2_pos).
  rewrite pow2_add. apply Qmult_lt_compat_r; [apply pow2_pos|].
  rewrite pow2_of_Z by exact Hp. rewrite <- Zlt_Qlt. exact Hm.
Qed.

(** Rounding is the identity on the values of the format. *)
Lemma round_exact f q :
  (0 <= prec f)%Z -> representable f q -> round f q = Fin (Qred q).
Proof.
  intros Hp (m & k & Hq & Hm & Hk & Hmax). unfold round.
  destruct (Qeq_bool q 0) eqn:E0.
  - apply Qeq_bool_iff in E0. f_equal. symmetry.
    change 0 with (Qred 0). now apply Qred_complete.
  - apply Qeq_bool_false in E0. unfold round_value, round_exponent.
    set (e := Z.max (ilog2 (Qabs q) + 1 - prec f) (emin f)).
    assert (He : (e <= k)%Z).
    { pose proof (ilog2_lower (Qabs q) (Qabs_pos_of_nonzero q E0)) as Hl.
      pose proof (dyadic_bound q m k (prec f) Hp Hq Hm) as Hu.
      pose proof (pow2_lt_inv _ _ (Qle_lt_trans _ _ _ Hl Hu)). lia. }
    assert (Hs : q / pow2 e == inject_Z (m * 2 ^ (k - e))).
    { rewrite inject_Z_mult, <- pow2_of_Z by lia.
      rewrite Hq. replace k with ((k - e) + e)%Z at 1 by lia.
      rewrite pow2_add. field. apply Qnot_eq_sym, Qlt_not_eq, pow2_pos. }
    rewrite (rne_inject_Z _ _ Hs).
    assert (Hr : inject_Z (m * 2 ^ (k - e)) * pow2 e == q).
    { rewrite <- Hs. field. apply Qnot_eq_sym, Qlt_not_eq, pow2_pos. }
    assert (Hov : Qle_bool (pow2 (emax f)) (Qabs (inject_Z (m * 2 ^ (k - e)) * pow2 e)) = false).
    { apply Qle_bool_false. now rewrite Hr. }
    rewrite Hov. f_equal. now apply Qred_complete.
Qed.


(** [ilog2] never undershoots either. *)
Lemma ilog2_upper q : 0 < q -> q < pow2 (ilog2 q + 1).
Proof.
  intros Hq. unfold ilog2.
  set (d := (Z.log2 (Qnum q) - Z.log2 (Z.pos (Qden q)))%Z).
  destruct (Qle_bool (pow2 d) q) eqn:E.
  - destruct q as [a b]. cbn [Qnum Qden] in d.
    assert (Ha : (0 < a)%Z).
    { unfold Qlt in Hq. simpl in Hq. lia. }
    pose proof (Z.log2_spec a Ha) as [_ Ha2].
    pose proof (Z.log2_spec (Z.pos b) (Pos2Z.is_pos b)) as [Hb1 _].
    pose proof (Z.log2_nonneg a) as Hla.
    pose proof (Z.log2_nonneg (Z.pos b)) as Hlb.
    rewrite <- Z.add_1_r in Ha2.
    apply Qlt_le_trans with
      (inject_Z (2 ^ (Z.log2 a + 1)) / inject_Z (2 ^ Z.log2 (Z.pos b))).
    + apply Qlt_shift_div_l.
      * rewrite <- pow2_of_Z by lia. apply pow2_pos.
      * unfold Qlt, Qmult, inject_Z. cbn [Qnum Qden].
        rewrite Pos.mul_1_r, !Z.mul_1_r.
        apply Z.le_lt_trans with (a * Z.pos b)%Z.
        -- apply Z.mul_le_mono_nonneg_l; lia.
        -- apply Z.mul_lt_mono_pos_r; lia.
    + rewrite <- !pow2_of_Z by lia.
      replace (d + 1)%Z with ((Z.log2 a + 1) - Z.log2 (Z.pos b))%Z
        by (unfold d; lia).
      rewrite pow2_sub. apply Qle_refl.
  - apply Qle_bool_false in E. now replace (d - 1 + 1)%Z with d by lia.
Qed.

(** Rounding to an integer moves a number by at most a half. *)
Lemma rne_bounds s : s - (1 # 2) <= inject_Z (rne s) /\ inject_Z (rne s) <= s + (1 # 2).
Proof.
  unfold rne. pose proof (Qfloor_le s) as Hl. pose proof (Qlt_floor s) as Hu.
  rewrite inject_Z_plus in Hu. change (inject_Z 1) with 1 in Hu.
  destruct (Qcompare_spec (s - inject_Z (Qfloor s)) (1 # 2)) as [E|E|E].
  - destruct (Z.even (Qfloor s)).
    + lra.
    + rewrite inject_Z_plus. change (inject_Z 1) with 1. lra.
  - lra.
  - rewrite inject_Z_plus. change (inject_Z 1) with 1. lra.
Qed.

Lemma pow2_pred e : pow2 (e - 1) == pow2 e / 2.
Proof. rewrite pow2_sub. reflexivity. Qed.

Lemma pow2_succ e : pow2 (e + 1) == pow2 e * 2.
Proof. rewrite pow2_add. reflexivity. Qed.

Lemma pow2_nonzero e : ~ pow2 e == 0.
Proof. apply Qnot_eq_sym, Qlt_not_eq, pow2_pos. Qed.

Lemma round_unfold f q :
  ~ q == 0 ->
  round f q =
  if Qle_bool (pow2 (emax f)) (Qabs (round_value f q))
  then Inf (negb (Qle_bool 0 q))
  else Fin (Qred (round_value f q)).
Proof.
  intros Hq. unfold round. apply Qeq_bool_false in Hq. now rewrite Hq.
Qed.

Lemma representable_comp f p q : p == q -> representable f p -> representable f q.
Proof.
  intros E (m & k & Hq & Hm & Hk & Hmax). exists m, k.
  repeat split; try assumption; now rewrite <- E.
Qed.

Lemma representable_of_Qred f q : representable f q -> representable f (Qred q).
Proof. apply representable_comp. now rewrite Qred_correct. Qed.

(** Rounding moves a number by at most half a unit in the last place. *)
Lemma round_error f q :
  Qabs (round_value f q - q) <= pow2 (round_exponent f q - 1).
Proof.
  unfold round_value. set (e := round_exponent f q).
  pose proof (rne_bounds (q / pow2 e)) as [Hl Hu].
  pose proof (pow2_pos e) as Hp.
  assert (Hq : q == q / pow2 e * pow2 e).
  { field. apply pow2_nonzero. }
  set (s := q / pow2 e) in *. set (n := inject_Z (rne s)) in *.
  rewrite pow2_pred. apply Qabs_Qle_condition.
  rewrite Hq at 1 2. set (P := pow2 e) in *. clearbody P n s. clear Hq.
  split.
  - setoid_replace (n * P - s * P) with ((n - s) * P) using relation Qeq by ring.
    setoid_replace (- (P / 2)) with ((- (1 # 2)) * P) using relation Qeq by field.
    apply Qmult_le_compat_r; lra.
  - setoid_replace (n * P - s * P) with ((n - s) * P) using relation Qeq by ring.
    setoid_replace (P / 2) with ((1 # 2) * P) using relation Qeq by field.
    apply Qmult_le_compat_r; lra.
Qed.

(** The scaled number fits the precision. *)
Lemma round_scaled_bound f q :
  ~ q == 0 ->
  Qabs (q / pow2 (round_exponent f q)) < pow2 (prec f).
Proof.
  intros Hq. set (e := round_exponent f q).
  pose proof (ilog2_upper (Qabs q) (Qabs_pos_of_nonzero q Hq)) as Hu.
  assert (He : (ilog2 (Qabs q) + 1 <= prec f + e)%Z).
  { unfold e, round_exponent. lia. }
  unfold Qdiv. rewrite Qabs_Qmult, Qabs_Qinv.
  rewrite (Qabs_pos (pow2 e)) by (apply Qlt_le_weak, pow2_pos).
  apply Qlt_shift_div_r; [apply pow2_pos|].
  rewrite <- pow2_add.
  apply Qlt_le_trans with (pow2 (ilog2 (Qabs q) + 1)); [exact Hu|].
  now apply pow2_le.
Qed.

(** What [round] returns is a value of the format. *)
Lemma round_representable f q r :
  (0 < prec f)%Z -> round f q = Fin r -> representable f r.
Proof.
  intros Hp Hr. destruct (Qeq_dec q 0) as [Hq|Hq].
  - unfold round in Hr. apply Qeq_bool_iff in Hq. rewrite Hq in Hr.
    injection Hr as <-. exists 0%Z, (emin f).
    split; [ring|]. split; [|split; [lia | apply pow2_pos]].
    apply Z.pow_pos_nonneg; lia.
  - rewrite (round_unfold f q Hq) in Hr.
    destruct (Qle_bool (pow2 (emax f)) (Qabs (round_value f q))) eqn:Hov;
      [discriminate|].
    injection Hr as <-. apply Qle_bool_false in Hov.
    apply representable_of_Qred.
    pose proof (round_scaled_bound f q Hq) as Hs.
    unfold round_value in *. set (e := round_exponent f q) in *.
    pose proof (rne_bounds (q / pow2 e)) as [Hl Hu].
    set (n := rne (q / pow2 e)) in *.
    assert (Hn : (Z.abs n <= 2 ^ prec f)%Z).
    { apply Qabs_Qlt_condition in Hs. destruct Hs as [Hs1 Hs2].
      rewrite (pow2_of_Z (prec f)) in Hs1 by lia.
      rewrite (pow2_of_Z (prec f)) in Hs2 by lia.
      assert (H1 : inject_Z n < inject_Z (2 ^ prec f + 1)).
      { rewrite inject_Z_plus. change (inject_Z 1) with 1. lra. }
      assert (H2 : inject_Z (- (2 ^ prec f + 1)) < inject_Z n).
      { rewrite inject_Z_opp, inject_Z_plus. change (inject_Z 1) with 1. lra. }
      rewrite <- Zlt_Qlt in H1, H2. lia. }
    assert (He : (emin f <= e)%Z) by (unfold e, round_exponent; lia).
    destruct (Z.eq_dec (Z.abs n) (2 ^ prec f)%Z) as [Heq|Hne].
    + (* the mantissa overflowed into the next binade *)
      exists (Z.sgn n * 2 ^ (prec f - 1))%Z, (e + 1)%Z.
      assert (Hpow : (2 ^ prec f = 2 * 2 ^ (prec f - 1))%Z).
      { rewrite <- Z.pow_succ_r by lia. f_equal. lia. }
      assert (Hpos : (0 < 2 ^ (prec f - 1))%Z) by (apply Z.pow_pos_nonneg; lia).
      split; [|split; [lia | split; [lia | exact Hov]]].
      rewrite pow2_succ.
      assert (En : n = (Z.sgn n * 2 ^ (prec f - 1) * 2)%Z) by lia.
      rewrite En at 1. rewrite !inject_Z_mult. change (inject_Z 2) with 2. ring.
    + exists n, e.
      split; [reflexivity|]. split; [lia|]. split; [lia | exact Hov].
Qed.

(** Truncation, through floor and ceiling. *)
Lemma Qtrunc_nonneg q : 0 <= q -> Qtrunc q = Qfloor q.
Proof.
  destruct q as [a b]. unfold Qle, Qtrunc, Qfloor. cbn [Qnum Qden].
  intros Ha. apply Z.quot_div_nonneg; lia.
Qed.

Lemma Qtrunc_nonpos q : q <= 0 -> Qtrunc q = Qceiling q.
Proof.
  destruct q as [a b]. unfold Qle, Qtrunc, Qceiling, Qfloor, Qopp.
  cbn [Qnum Qden]. intros Ha.
  rewrite <- (Z.opp_involutive a) at 1. rewrite Z.quot_opp_l by lia.
  f_equal. apply Z.quot_div_nonneg; lia.
Qed.

Lemma Qtrunc_comp p q : p == q -> Qtrunc p = Qtrunc q.
Proof.
  intros E. destruct (Qlt_le_dec p 0) as [H|H].
  - rewrite !Qtrunc_nonpos.
    + now apply Qceiling_comp.
    + rewrite <- E. now apply Qlt_le_weak.
    + now apply Qlt_le_weak.
  - rewrite !Qtrunc_nonneg.
    + now apply Qfloor_comp.
    + now rewrite <- E.
    + exact H.
Qed.

Lemma Qtrunc_mono p q : p <= q -> (Qtrunc p <= Qtrunc q)%Z.
Proof.
  intros Hpq. destruct (Qlt_le_dec p 0) as [Hp|Hp];
    destruct (Qlt_le_dec q 0) as [Hq|Hq].
  - rewrite !Qtrunc_nonpos by now apply Qlt_le_weak.
    now apply Qceiling_resp_le.
  - rewrite (Qtrunc_nonpos p) by now apply Qlt_le_weak.
    rewrite (Qtrunc_nonneg q) by exact Hq.
    apply Z.le_trans with 0%Z.
    + change 0%Z with (Qceiling 0). apply Qceiling_resp_le. now apply Qlt_le_weak.
    + change 0%Z with (Qfloor 0). now apply Qfloor_resp_le.
  - exfalso. apply (Qlt_not_le _ _ Hq). now apply Qle_trans with p.
  - rewrite !Qtrunc_nonneg by assumption. now apply Qfloor_resp_le.
Qed.

(** A value between two consecutive integers truncates to the lower one. *)
Lemma Qtrunc_between q n :
  (0 <= n)%Z -> inject_Z n <= q -> q < inject_Z (n + 1) -> Qtrunc q = n.
Proof.
  intros Hn Hl Hu.
  assert (H0 : 0 <= q).
  { apply Qle_trans with (inject_Z n); [|exact Hl].
    change 0 with (inject_Z 0). now rewrite <- Zle_Qle. }
  rewrite Qtrunc_nonneg by exact H0.
  pose proof (Qfloor_le q) as H1. pose proof (Qlt_floor q) as H2.
  assert (Ha : (n < Qfloor q + 1)%Z).
  { rewrite Zlt_Qlt. now apply Qle_lt_trans with q. }
  assert (Hb : (Qfloor q < n + 1)%Z).
  { rewrite Zlt_Qlt. now apply Qle_lt_trans with q. }
  lia.
Qed.

Lemma to_uint16_comp p q : p == q -> to_uint16 (Fin p) = to_uint16 (Fin q).
Proof. intros E. unfold to_uint16. now rewrite (Qtrunc_comp _ _ E). Qed.

Lemma to_uint16_range x n : to_uint16 x = Some n -> (0 <= n <= 65535)%Z.
Proof.
  destruct x as [| |q]; try discriminate. unfold to_uint16.
  destruct (Z.leb_spec 0 (Qtrunc q)); destruct (Z.leb_spec (Qtrunc q) 65535);
    cbn; intros [= <-]; lia.
Qed.

(** Every binary32 value is a binary64 value, and so is a thousand times
    it: the widening and the product in the quantizer are exact. *)
Lemma representable_32_64 q : representable binary32 q -> representable binary64 q.
Proof.
  intros (m & k & Hq & Hm & Hk & Hmax). exists m, k.
  cbn [prec emin emax binary32 binary64] in *.
  repeat split; [exact Hq | lia | lia |].
  apply Qlt_le_trans with (pow2 128); [exact Hmax|]. now apply pow2_le.
Qed.

Lemma representable_times_1000 q :
  representable binary32 q -> representable binary64 (q * 1000).
Proof.
  intros (m & k & Hq & Hm & Hk & Hmax). exists (m * 1000)%Z, k.
  cbn [prec emin emax binary32 binary64] in *.
  repeat split.
  - rewrite Hq, inject_Z_mult. change (inject_Z 1000) with 1000. ring.
  - lia.
  - lia.
  - rewrite Qabs_Qmult. change (Qabs 1000) with 1000.
    apply Qlt_le_trans with (pow2 128 * 1000).
    + apply Qmult_lt_compat_r; [reflexivity | exact Hmax].
    + apply Qle_bool_iff. vm_compute. reflexivity.
Qed.

End RoundingFacts.

(** ** Agreement with the Standard Library's IEEE 754 specification

    The constants and products of the sensor, computed by [SpecFloat]. *)

Example div64_agrees :
  of_spec_float
    (SpecFloat.SFdiv 53 1024
       (SpecFloat.binary_normalize 53 1024 65534 0 false)
       (SpecFloat.binary_normalize 53 1024 1000 0 false)) =
  div binary64 (of_Z binary64 65534) (Fin 1000).
Proof. vm_compute. reflexivity. Qed.

Example narrow32_agrees :
  of_spec_float (SpecFloat.binary_normalize 24 128 4611615649683210 (-46) false) =
  convert binary32 (div binary64 (of_Z binary64 65535) (Fin 1000)).
Proof. vm_compute. reflexivity. Qed.

Example div32_agrees :
  of_spec_float
    (SpecFloat.SFdiv 24 128
       (SpecFloat.binary_normalize 24 128 5 0 false)
       (SpecFloat.binary_normalize 24 128 1000 0 false)) =
  meters_of_mm 5.
Proof. vm_compute. reflexivity. Qed.

Example mul64_agrees :
  of_spec_float
    (SpecFloat.SFmul 53 1024
       (SpecFloat.binary_normalize 53 1024 5368709 (-30) false)
       (SpecFloat.binary_normalize 53 1024 1000 0 false)) =
  mul binary64 (convert binary64 (meters_of_mm 5)) (of_Z binary64 1000).
Proof. vm_compute. reflexivity. Qed.

Example add64_agrees :
  of_spec_float
    (SpecFloat.SFadd 53 1024
       (SpecFloat.SFdiv 53 1024
          (SpecFloat.binary_normalize 53 1024 641 0 false)
          (SpecFloat.binary_normalize 53 1024 2 0 false))
       (SpecFloat.binary_normalize 53 1024 1 (-1) false)) =
  add binary64 (div binary64 (of_Z binary64 641) (Fin 2)) (Fin (1 # 2)).
Proof. vm_compute. reflexivity. Qed.

(** ** The depth quantizer, pixel by pixel *)

Section Quantizer.
Local Open Scope Q_scope.

Lemma kDepth16UOverflowDistance_value :
  kDepth16UOverflowDistance = Fin (2147451 # 32768).
Proof. vm_compute. reflexivity. Qed.

Lemma of_Z_1000 : of_Z binary64 1000 = Fin 1000.
Proof. vm_compute. reflexivity. Qed.

(** Up to the overflow distance the pixel is widened and scaled exactly. *)
Lemma pixel_below x :
  representable binary32 x -> x <= 2147451 # 32768 ->
  Depth32FTo16U_pixel (Fin x) = to_uint16 (Fin (x * 1000)).
Proof.
  intros Hx Hle. unfold Depth32FTo16U_pixel.
  rewrite kDepth16UOverflowDistance_value, of_Z_1000.
  unfold std_min, lt.
  apply Qle_bool_iff in Hle. rewrite Hle. cbn [negb convert].
  rewrite (round_exact binary64 x) by
    (cbn; try lia; now apply representable_32_64).
  cbn [mul].
  rewrite (round_exact binary64 (Qred x * 1000)).
  - apply to_uint16_comp. now rewrite !Qred_correct.
  - cbn. lia.
  - apply representable_comp with (x * 1000).
    + now rewrite Qred_correct.
    + now apply representable_times_1000.
Qed.

(** Beyond it the pixel is replaced by the overflow distance. *)
Lemma pixel_above x :
  2147451 # 32768 < x -> Depth32FTo16U_pixel (Fin x) = Some 65535%Z.
Proof.
  intros Hlt. unfold Depth32FTo16U_pixel.
  rewrite kDepth16UOverflowDistance_value. unfold std_min, lt.
  apply Qle_bool_false in Hlt. rewrite Hlt. cbn [negb].
  vm_compute. reflexivity.
Qed.

Lemma pixel_pos_inf : Depth32FTo16U_pixel (Inf false) = Some 65535%Z.
Proof. vm_compute. reflexivity. Qed.

Lemma pixel_neg_inf : Depth32FTo16U_pixel (Inf true) = None.
Proof. vm_compute. reflexivity. Qed.

Lemma pixel_nan : Depth32FTo16U_pixel NaN = None.
Proof. vm_compute. reflexivity. Qed.

(** The code's pixel is the specification's pixel. *)
Lemma pixel_spec v :
  is_format binary32 v -> Depth32FTo16U_pixel v = quantize_spec v.
Proof.
  destruct v as [|[|]|x]; intros Hv.
  - apply pixel_nan.
  - apply pixel_neg_inf.
  - apply pixel_pos_inf.
  - cbn [is_format] in Hv. unfold quantize_spec.
    change ((2 ^ 16 - 1)%Z # 1000) with (65535 # 1000).
    destruct (Qlt_le_dec (2147451 # 32768) x) as [Hhi|Hlo].
    + rewrite (pixel_above x Hhi). symmetry.
      rewrite (to_uint16_comp _ 65535); [reflexivity|].
      rewrite Q.min_r; [reflexivity|].
      apply Qlt_le_weak. apply Qlt_trans with (2147451 # 32768); [reflexivity | exact Hhi].
    + rewrite (pixel_below x Hv Hlo).
      destruct (Qlt_le_dec (65535 # 1000) x) as [Hc|Hc].
      * (* between the ceiling and its binary32 rounding *)
        rewrite (to_uint16_comp (Qmin x (65535 # 1000) * 1000) 65535).
        2:{ rewrite Q.min_r by now apply Qlt_le_weak. reflexivity. }
        unfold to_uint16.
        rewrite (Qtrunc_between (x * 1000) 65535); [reflexivity | lia | |].
        -- apply Qle_trans with ((65535 # 1000) * 1000); [discriminate|].
           apply Qmult_le_compat_r; [now apply Qlt_le_weak | discriminate].
        -- apply Qle_lt_trans with ((2147451 # 32768) * 1000); [|reflexivity].
           apply Qmult_le_compat_r; [exact Hlo | discriminate].
      * apply to_uint16_comp. now rewrite Q.min_l.
Qed.

End Quantizer.

(** ** Images and the conversion loops *)

Lemma for_int_invariant {St : Type} (Inv : Z -> option St -> Prop)
    (n : Z) (body : Z -> St -> option St) (s0 : St) :
  Inv 0 (Some s0) ->
  (forall i o, 0 <= i < n -> Inv i o -> Inv (i + 1) (o ≫= body i)) ->
  Inv (Z.max 0 n) (for_int n body s0).
Proof.
  intros H0 Hstep. unfold for_int.
  replace (Z.max 0 n) with (Z.of_nat (Z.to_nat n)) by lia.
  assert (Hk : forall k : nat, (k <= Z.to_nat n)%nat ->
             Inv (Z.of_nat k)
               (foldl (fun acc i => acc ≫= body (Z.of_nat i)) (Some s0) (seq 0 k))).
  { induction k as [|k IH]; intros Hle.
    - exact H0.
    - rewrite seq_S, foldl_app. cbn [foldl Nat.add].
      replace (Z.of_nat (S k)) with (Z.of_nat k + 1) by lia.
      apply Hstep; [lia | apply IH; lia]. }
  apply Hk. lia.
Qed.

Section ImageFacts.
Context {P : Type}.
Implicit Types (img : Image.t P).

Lemma index_in_range img x y :
  0 <= x < Image.width img -> 0 <= y < Image.height img ->
  Image.index img x y = Some (Z.to_nat (x + y * Image.width img)).
Proof.
  intros Hx Hy. unfold Image.index.
  destruct (Z.leb_spec 0 x); [|lia].
  destruct (Z.ltb_spec x (Image.width img)); [|lia].
  destruct (Z.leb_spec 0 y); [|lia].
  destruct (Z.ltb_spec y (Image.height img)); [|lia].
  reflexivity.
Qed.

Lemma index_bound img x y :
  Image.wf img ->
  0 <= x < Image.width img -> 0 <= y < Image.height img ->
  (Z.to_nat (x + y * Image.width img) < length (Image.data img))%nat.
Proof.
  intros (Hw & Hh & Hlen) Hx Hy. rewrite Hlen. apply Z2Nat.inj_lt; nia.
Qed.

Lemma index_inj (W x y x' y' : Z) :
  0 <= x < W -> 0 <= x' < W -> 0 <= y -> 0 <= y' ->
  Z.to_nat (x + y * W) = Z.to_nat (x' + y' * W) -> x = x' /\ y = y'.
Proof.
  intros Hx Hx' Hy Hy' E.
  apply Z2Nat.inj in E; [|nia|nia].
  assert (y = y') by nia. subst. lia.
Qed.

Lemma at_in_range img x y :
  Image.wf img ->
  0 <= x < Image.width img -> 0 <= y < Image.height img ->
  exists p, Image.at_ img x y = Some p.
Proof.
  intros Hwf Hx Hy. unfold Image.at_. rewrite index_in_range by assumption.
  cbn. apply lookup_lt_is_Some_2. now apply index_bound.
Qed.

Lemma set_at_in_range img x y v :
  (Z.to_nat (x + y * Image.width img) < length (Image.data img))%nat ->
  0 <= x < Image.width img -> 0 <= y < Image.height img ->
  Image.set_at img x y v =
  Some (Image.Make (Image.width img) (Image.height img)
          (<[Z.to_nat (x + y * Image.width img) := v]> (Image.data img))).
Proof.
  intros Hlen Hx Hy. unfold Image.set_at. rewrite index_in_range by assumption.
  cbn. destruct (decide _); [reflexivity | contradiction].
Qed.

End ImageFacts.

Section ConvertLoops.
Variables (d32 : ImageDepth32F) (d16 : ImageDepth16U).
Hypothesis wf32 : Image.wf d32.
Hypothesis wf16 : Image.wf d16.
Hypothesis same_width : Image.width d16 = Image.width d32.
Hypothesis same_height : Image.height d16 = Image.height d32.

Lemma loop_inv_weaken w h w' h' o :
  (forall x y, 0 <= x < Image.width d16 -> 0 <= y < Image.height d16 ->
     (visited w h x y <-> visited w' h' x y)) ->
  loop_inv d32 d16 w h o -> loop_inv d32 d16 w' h' o.
Proof.
  intros Hv. destruct o as [d|]; cbn.
  - intros (Hw & Hh & Hl & Hpx). repeat split; try assumption.
    + intros Hvis. apply (Hpx x y); try assumption. now apply Hv.
    + intros Hvis. apply (Hpx x y); try assumption.
      intros Hc. apply Hvis. now apply Hv.
  - intros (x & y & p & Hx & Hy & Hvis & Hp). exists x, y, p.
    repeat split; try tauto. now apply Hv.
Qed.

Lemma loop_inv_None_mono w h w' h' :
  (forall x y, 0 <= x < Image.width d16 -> 0 <= y < Image.height d16 ->
     visited w h x y -> visited w' h' x y) ->
  loop_inv d32 d16 w h None -> loop_inv d32 d16 w' h' None.
Proof.
  intros Hv (x & y & p & Hx & Hy & Hvis & Hp). exists x, y, p.
  repeat split; try tauto. now apply Hv.
Qed.

(** One iteration of the inner loop. *)
Lemma inner_step w h o :
  0 <= w < Image.width d16 -> 0 <= h < Image.height d16 ->
  loop_inv d32 d16 w h o ->
  loop_inv d32 d16 w (h + 1)
    (o ≫= fun d16 =>
       pixel ← Image.at_ d32 w h;
       mm ← Depth32FTo16U_pixel pixel;
       Image.set_at d16 w h mm).
Proof.
  intros Hw Hh Hinv. destruct o as [d|]; cbn [mbind option_bind].
  2:{ revert Hinv. apply loop_inv_None_mono. unfold visited. intros; lia. }
  destruct Hinv as (Ew & Eh & El & Hpx).
  destruct (at_in_range d32 w h wf32) as [p Hp]; [lia | lia |].
  rewrite Hp. cbn [mbind option_bind].
  destruct (Depth32FTo16U_pixel p) as [mm|] eqn:Hmm; cbn [mbind option_bind].
  2:{ exists w, h, p. repeat split; try tauto; try lia. unfold visited. lia. }
  assert (Hidx : (Z.to_nat (w + h * Image.width d) < length (Image.data d))%nat).
  { rewrite El, Ew. now apply index_bound. }
  rewrite set_at_in_range by (try assumption; lia).
  cbn. repeat split; try assumption.
  - now rewrite length_insert.
  - intros Hvis.
    destruct (decide (x = w /\ y = h)) as [[-> ->]|Hne].
    + exists p, mm. repeat split; try assumption.
      unfold Image.at_. rewrite index_in_range by (cbn; lia). cbn.
      now apply list_lookup_insert_eq.
    + destruct (Hpx x y) as [Hthen _]; try assumption.
      destruct Hthen as (p' & mm' & Hp' & Hmm' & Hat).
      { unfold visited in *. lia. }
      exists p', mm'. repeat split; try assumption.
      rewrite <- Hat. unfold Image.at_.
      rewrite !index_in_range by (cbn; lia). cbn.
      apply list_lookup_insert_ne. rewrite Ew. intros E.
      apply index_inj in E; try lia.
  - intros Hvis. destruct (Hpx x y) as [_ Helse]; try assumption.
    rewrite <- Helse by (unfold visited in *; lia).
    unfold Image.at_. rewrite !index_in_range by (cbn; lia). cbn.
    apply list_lookup_insert_ne. rewrite Ew. intros E.
    apply index_inj in E; try lia. unfold visited in *. lia.
Qed.

(** One iteration of the outer loop: a whole column. *)
Lemma outer_step w o :
  0 <= w < Image.width d16 ->
  loop_inv d32 d16 w 0 o ->
  loop_inv d32 d16 (w + 1) 0
    (o ≫= fun d16 =>
       for_int (Image.height d16) (fun h d16 =>
         pixel ← Image.at_ d32 w h;
         mm ← Depth32FTo16U_pixel pixel;
         Image.set_at d16 w h mm) d16).
Proof.
  intros Hw Hinv. destruct o as [d|]; cbn [mbind option_bind].
  2:{ revert Hinv. apply loop_inv_None_mono. unfold visited. intros; lia. }
  assert (Eh : Image.height d = Image.height d16) by apply Hinv.
  rewrite Eh.
  apply loop_inv_weaken with (w := w) (h := Z.max 0 (Image.height d16)).
  { unfold visited. intros; lia. }
  apply (for_int_invariant (loop_inv d32 d16 w)); [exact Hinv|].
  intros h o Hh. now apply inner_step.
Qed.

Lemma convert_loop_inv :
  loop_inv d32 d16 (Image.width d16) 0 (ConvertDepth32FTo16U d32 d16).
Proof.
  unfold ConvertDepth32FTo16U.
  apply loop_inv_weaken with (w := Z.max 0 (Image.width d16)) (h := 0).
  { unfold visited. intros; lia. }
  apply (for_int_invariant (fun w => loop_inv d32 d16 w 0)).
  - cbn [loop_inv]. repeat (split; [reflexivity|]).
    intros x y Hx Hy. split; [|reflexivity].
    unfold visited. lia.
  - intros w o Hw. now apply outer_step.
Qed.

End ConvertLoops.

(** ** The depth quantizer on images *)




(** ** Monotonicity and re-quantisation *)

Section Requantize.
Local Open Scope Q_scope.

Lemma to_uint16_of_trunc q n :
  Qtrunc q = n -> (0 <= n <= 65535)%Z -> to_uint16 (Fin q) = Some n.
Proof.
  intros <- Hn. unfold to_uint16.
  destruct (Z.leb_spec 0 (Qtrunc q)); [|lia].
  destruct (Z.leb_spec (Qtrunc q) 65535); [|lia].
  reflexivity.
Qed.

Lemma quantize_spec_mono x y a b :
  le x y = true -> quantize_spec x = Some a -> quantize_spec y = Some b ->
  (a <= b)%Z.
Proof.
  intros Hle Ha Hb.
  destruct x as [|[|]|p]; try discriminate;
    destruct y as [|[|]|q]; try discriminate.
  - vm_compute in Ha, Hb. injection Ha as <-. injection Hb as <-. lia.
  - unfold quantize_spec in Ha. apply to_uint16_range in Ha.
    vm_compute in Hb. injection Hb as <-. lia.
  - unfold quantize_spec, to_uint16 in Ha, Hb.
    destruct (_ && _) in Ha; [|discriminate].
    destruct (_ && _) in Hb; [|discriminate].
    injection Ha as <-. injection Hb as <-.
    apply Qtrunc_mono. apply Qmult_le_compat_r; [|discriminate].
    apply Q.min_le_compat_r.
    cbn in Hle. rewrite Bool.negb_involutive in Hle. now apply Qle_bool_iff.
Qed.

(** The millimetre count of a depth, re-expressed in metres. *)
Lemma meters_of_mm_round n :
  (0 < n < 65535)%Z ->
  exists r,
    meters_of_mm n = Fin r /\ representable binary32 r /\
    Qabs (r - inject_Z n / 1000) <= 1 # 262144.
Proof.
  intros Hn. unfold meters_of_mm, of_Z.
  rewrite (round_exact binary32 (inject_Z n)).
  2:{ cbn. lia. }
  2:{ exists n, 0%Z. cbn [prec emin emax binary32].
      split; [change (pow2 0) with 1; ring|]. split; [lia|]. split; [lia|].
      rewrite Qabs_inject_Z.
      apply Qlt_trans with (inject_Z 65535); [|reflexivity].
      rewrite <- Zlt_Qlt. lia. }
  cbn [div].
  change (Qeq_bool 1000 0) with false. cbv iota.
  set (q := Qred (inject_Z n) / 1000).
  assert (Eq : q == inject_Z n * (1 # 1000)).
  { unfold q. rewrite Qred_correct. field. }
  assert (Hn1 : 1 <= inject_Z n).
  { change 1 with (inject_Z 1). rewrite <- Zle_Qle. lia. }
  assert (Hn2 : inject_Z n <= 65534).
  { change 65534 with (inject_Z 65534). rewrite <- Zle_Qle. lia. }
  assert (Hq1 : 1 # 1000 <= q) by (rewrite Eq; lra).
  assert (Hq2 : q <= 65534 # 1000) by (rewrite Eq; lra).
  assert (Hq0 : ~ q == 0) by lra.
  assert (Habs : Qabs q == q) by (apply Qabs_pos; lra).
  assert (He : (round_exponent binary32 q - 1 <= -18)%Z).
  { unfold round_exponent. cbn [prec emin binary32].
    pose proof (ilog2_lower (Qabs q) (Qabs_pos_of_nonzero q Hq0)) as Hl.
    assert (Hlt : pow2 (ilog2 (Qabs q)) < pow2 7).
    { apply Qle_lt_trans with (Qabs q); [exact Hl|].
      rewrite Habs. apply Qle_lt_trans with (65534 # 1000); [exact Hq2 | reflexivity]. }
    apply pow2_lt_inv in Hlt. lia. }
  pose proof (round_error binary32 q) as Herr.
  assert (Herr' : Qabs (round_value binary32 q - q) <= 1 # 262144).
  { apply Qle_trans with (pow2 (round_exponent binary32 q - 1)); [exact Herr|].
    change (1 # 262144) with (pow2 (-18)). now apply pow2_le. }
  apply Qabs_Qle_condition in Herr'. destruct Herr' as [Hlo Hhi].
  assert (Hfin : Qle_bool (pow2 (emax binary32)) (Qabs (round_value binary32 q)) = false).
  { apply Qle_bool_false. apply Qabs_Qlt_condition.
    assert (Hbig : 100 < pow2 (emax binary32)) by reflexivity.
    split; lra. }
  assert (Hround : round binary32 q = Fin (Qred (round_value binary32 q))).
  { rewrite (round_unfold binary32 q Hq0). now rewrite Hfin. }
  exists (Qred (round_value binary32 q)). split; [exact Hround|]. split.
  - apply (round_representable binary32 q); [cbn; lia | exact Hround].
  - rewrite Qred_correct.
    setoid_replace (inject_Z n / 1000) with q using relation Qeq
      by (rewrite Eq; field).
    apply Qabs_Qle_condition. split; lra.
Qed.

(** Quantising a millimetre count again gives the count or one less. *)
Lemma requantize n :
  (0 <= n <= 65535)%Z ->
  Depth32FTo16U_pixel (meters_of_mm n) = Some n \/
  Depth32FTo16U_pixel (meters_of_mm n) = Some (n - 1)%Z.
Proof.
  intros Hn.
  destruct (Z.eq_dec n 0%Z) as [->|H0]; [left; vm_compute; reflexivity|].
  destruct (Z.eq_dec n 65535%Z) as [->|H1]; [left; vm_compute; reflexivity|].
  destruct (meters_of_mm_round n) as (r & -> & Hrep & Herr); [lia|].
  setoid_replace (inject_Z n / 1000) with (inject_Z n * (1 # 1000))
    using relation Qeq in Herr by field.
  apply Qabs_Qle_condition in Herr. destruct Herr as [Hlo Hhi].
  assert (Hn1 : 1 <= inject_Z n).
  { change 1 with (inject_Z 1). rewrite <- Zle_Qle. lia. }
  assert (Hn2 : inject_Z n <= 65534).
  { change 65534 with (inject_Z 65534). rewrite <- Zle_Qle. lia. }
  rewrite (pixel_below r Hrep) by lra.
  destruct (Qlt_le_dec (r * 1000) (inject_Z n)) as [Hlt|Hge].
  - right. apply to_uint16_of_trunc; [|lia].
    apply Qtrunc_between; [lia | |].
    + replace (n - 1)%Z with (n + -1)%Z by lia.
      rewrite inject_Z_plus. change (inject_Z (-1)) with (-1). lra.
    + now replace (n - 1 + 1)%Z with n by lia.
  - left. apply to_uint16_of_trunc; [|lia].
    apply Qtrunc_between; [lia | exact Hge |].
    rewrite inject_Z_plus. change (inject_Z 1) with 1. lra.
Qed.

(** Which of the two it is: the count comes back when the binary32 nearest
    to [n / 1000] is not below [n / 1000], and one less when it is. *)
Lemma requantize_cases n :
  (0 <= n <= 65535)%Z ->
  exists r,
    meters_of_mm n = Fin r /\ representable binary32 r /\
    (inject_Z n / 1000 <= r -> Depth32FTo16U_pixel (Fin r) = Some n) /\
    (r < inject_Z n / 1000 -> Depth32FTo16U_pixel (Fin r) = Some (n - 1)%Z).
Proof.
  intros Hn.
  destruct (Z.eq_dec n 0%Z) as [->|H0].
  { exists 0. split; [vm_compute; reflexivity|]. split.
    - exists 0%Z, 0%Z. split; [reflexivity|]. split; [reflexivity|].
      split; [discriminate | reflexivity].
    - split; [intros _; vm_compute; reflexivity|].
      intros Hlt. vm_compute in Hlt. discriminate. }
  destruct (Z.eq_dec n 65535%Z) as [->|H1].
  { exists (2147451 # 32768). split; [vm_compute; reflexivity|]. split.
    - exists 8589804%Z, (-17)%Z. split; [reflexivity|]. split; [reflexivity|].
      split; [discriminate | reflexivity].
    - split; [intros _; vm_compute; reflexivity|].
      intros Hlt. vm_compute in Hlt. discriminate. }
  destruct (meters_of_mm_round n) as (r & Hr & Hrep & Herr); [lia|].
  exists r. split; [exact Hr|]. split; [exact Hrep|].
  setoid_replace (inject_Z n / 1000) with (inject_Z n * (1 # 1000))
    using relation Qeq in Herr by field.
  setoid_replace (inject_Z n / 1000) with (inject_Z n * (1 # 1000))
    using relation Qeq by field.
  apply Qabs_Qle_condition in Herr. destruct Herr as [Hlo Hhi].
  assert (Hn1 : 1 <= inject_Z n).
  { change 1 with (inject_Z 1). rewrite <- Zle_Qle. lia. }
  assert (Hn2 : inject_Z n <= 65534).
  { change 65534 with (inject_Z 65534). rewrite <- Zle_Qle. lia. }
  rewrite (pixel_below r Hrep) by lra.
  split.
  - intros Hge. apply to_uint16_of_trunc; [|lia].
    apply Qtrunc_between; [lia | lra |].
    rewrite inject_Z_plus. change (inject_Z 1) with 1. lra.
  - intros Hlt. apply to_uint16_of_trunc; [|lia].
    apply Qtrunc_between; [lia | |].
    + replace (n - 1)%Z with (n + -1)%Z by lia.
      rewrite inject_Z_plus. change (inject_Z (-1)) with (-1). lra.
    + replace (n - 1 + 1)%Z with n by lia. lra.
Qed.

End Requantize.

Lemma pixel_defined_in_range x :
  is_format binary32 x -> le (Fin 0) x = true ->
  le x (Fin (65535 # 1000)) = true ->
  exists n, Depth32FTo16U_pixel x = Some n /\ 0 <= n <= 65535.
Proof.
  intros Hf H0 Hc. rewrite (pixel_spec x Hf).
  destruct x as [|[|]|p]; try discriminate.
  cbn in H0, Hc. rewrite Bool.negb_involutive in H0, Hc.
  apply Qle_bool_iff in H0, Hc.
  unfold quantize_spec. change ((2 ^ 16 - 1) # 1000)%Q with (65535 # 1000)%Q.
  set (v := (Qmin p (65535 # 1000) * 1000)%Q).
  assert (Hv : (0 <= v <= 65535)%Q).
  { unfold v. pose proof (Q.le_min_r p (65535 # 1000)) as Hr.
    assert (Hl : (0 <= Qmin p (65535 # 1000))%Q) by (apply Q.min_glb; lra).
    split; lra. }
  assert (Hlo : 0 <= Qtrunc v).
  { change 0 with (Qtrunc 0). now apply Qtrunc_mono. }
  assert (Hhi : Qtrunc v <= 65535).
  { change 65535 with (Qtrunc 65535). now apply Qtrunc_mono. }
  exists (Qtrunc v). split; [|lia].
  now apply to_uint16_of_trunc.
Qed.

(** C9 (amended).  The quantizer is monotonic: of two binary32 depths, the
    larger never converts to fewer millimetres.  For a depth in
    [[0, (2^16 - 1)/1000]] the conversion is defined, and converting its
    millimetre count [n] again, after re-expressing it in metres as the
    binary32 [r] nearest to [n / 1000], yields the same count or one
    millimetre less: the same count when [r] is not below [n / 1000], one
    less when [r] lies below it, since the conversion truncates. *)
Theorem quantizer_monotone_requantize :
  (forall x y a b,
     is_format binary32 x -> is_format binary32 y -> le x y = true ->
     Depth32FTo16U_pixel x = Some a -> Depth32FTo16U_pixel y = Some b ->
     a <= b) /\
  (forall x,
     is_format binary32 x ->
     le (Fin 0) x = true -> le x (Fin (65535 # 1000)) = true ->
     exists n r,
       Depth32FTo16U_pixel x = Some n /\
       meters_of_mm n = Fin r /\ is_format binary32 (Fin r) /\
       ((inject_Z n / 1000 <= r)%Q ->
        Depth32FTo16U_pixel (meters_of_mm n) = Some n) /\
       ((r < inject_Z n / 1000)%Q ->
        Depth32FTo16U_pixel (meters_of_mm n) = Some (n - 1)) /\
       (Depth32FTo16U_pixel (meters_of_mm n) = Some n \/
        Depth32FTo16U_pixel (meters_of_mm n) = Some (n - 1))).
Proof.
  split.
  - intros x y a b Hx Hy Hle Ha Hb. rewrite (pixel_spec x Hx) in Ha.
    rewrite (pixel_spec y Hy) in Hb. exact (quantize_spec_mono x y a b Hle Ha Hb).
  - intros x Hx H0 Hc.
    destruct (pixel_defined_in_range x Hx H0 Hc) as (n & Hn & Hrange).
    destruct (requantize_cases n Hrange) as (r & Hr & Hrep & Hsame & Hless).
    exists n, r. split; [exact Hn|]. split; [exact Hr|]. split; [exact Hrep|].
    rewrite Hr. split; [exact Hsame|]. split; [exact Hless|].
    rewrite <- Hr. now apply requantize.
Qed.

Lemma representable_dyadic f (m e : Z) (q : Q) :
  (q == inject_Z m * pow2 e)%Q -> Z.abs m < 2 ^ prec f -> emin f <= e ->
  (Qabs q < pow2 (emax f))%Q -> representable f q.
Proof. intros H1 H2 H3 H4. exists m, e. auto. Qed.

(** A closed dyadic number is in a format by computation. *)
Ltac dyadic f m e :=
  apply (representable_dyadic f m e);
  [reflexivity | reflexivity | discriminate | reflexivity].

Lemma quantizer_monotone_requantize_witness :
  (is_format binary32 (Fin (21 # 4096)) /\ is_format binary32 (Fin (3 # 2)) /\
   le (Fin (21 # 4096)) (Fin (3 # 2)) = true /\
   Depth32FTo16U_pixel (Fin (21 # 4096)) = Some 5 /\
   Depth32FTo16U_pixel (Fin (3 # 2)) = Some 1500 /\
   le (Fin 0) (Fin (21 # 4096)) = true /\
   le (Fin (21 # 4096)) (Fin (65535 # 1000)) = true) /\
  5 <= 1500 /\
  exists n r,
    Depth32FTo16U_pixel (Fin (21 # 4096)) = Some n /\
    meters_of_mm n = Fin r /\ is_format binary32 (Fin r) /\
    ((inject_Z n / 1000 <= r)%Q ->
     Depth32FTo16U_pixel (meters_of_mm n) = Some n) /\
    ((r < inject_Z n / 1000)%Q ->
     Depth32FTo16U_pixel (meters_of_mm n) = Some (n - 1)) /\
    (Depth32FTo16U_pixel (meters_of_mm n) = Some n \/
     Depth32FTo16U_pixel (meters_of_mm n) = Some (n - 1)).
Proof.
  assert (H1 : is_format binary32 (Fin (21 # 4096))).
  { dyadic binary32 21 (-12). }
  assert (H2 : is_format binary32 (Fin (3 # 2))).
  { dyadic binary32 3 (-1). }
  assert (H3 : Depth32FTo16U_pixel (Fin (21 # 4096)) = Some 5)
    by (vm_compute; reflexivity).
  assert (H4 : Depth32FTo16U_pixel (Fin (3 # 2)) = Some 1500)
    by (vm_compute; reflexivity).
  split; [repeat split; assumption || reflexivity|].
  split.
  - exact (proj1 quantizer_monotone_requantize (Fin (21 # 4096)) (Fin (3 # 2))
             5 1500 H1 H2 eq_refl H3 H4).
  - exact (proj2 quantizer_monotone_requantize (Fin (21 # 4096)) H1 eq_refl eq_refl).
Defined.

(** C9, as stated, fails: 0.005126953125 m converts to 5 mm, and 5 mm
    re-expressed in metres (the binary32 nearest to 0.005 lies below it)
    converts to 4 mm. *)
Lemma requantize_not_idempotent :
  is_format binary32 (Fin (21 # 4096)) /\
  le (Fin 0) (Fin (21 # 4096)) = true /\
  le (Fin (21 # 4096)) (Fin (65535 # 1000)) = true /\
  Depth32FTo16U_pixel (Fin (21 # 4096)) = Some 5 /\
  meters_of_mm 5 = Fin (5368709 # 1073741824) /\
  Depth32FTo16U_pixel (meters_of_mm 5) = Some 4.
Proof.
  split.
  { dyadic binary32 21 (-12). }
  repeat split; vm_compute; reflexivity.
Qed.


Example ConvertDepth32FTo16U_sample :
  ConvertDepth32FTo16U Sample.depth_image (Image.new 0 2 1) =
  Some (Image.Make 2 1 [1500; 65535]).
Proof. vm_compute. reflexivity. Qed.

(** ** Outputs of the continuous sensor *)

Section SensorFacts.
Context {T : Type} `{DrakeLib T}.
Local Open Scope transform_scope.

(** C1 (amended).  With the query input connected, evaluating the color
    image output evaluates the input port and then calls the renderer's
    color-render operation once, with the simple camera properties (width,
    height, vertical field of view, renderer name) of the color camera, the
    parent frame id, the show-window flag and, as pose, the fixed
    parent-to-body transform composed with the color sensor-body offset: a
    pose in the parent frame, not in the world.  On the world frame this is
    the body's world pose composed with the offset. *)
Theorem CalcColorImage_render_call (self : RgbdSensor T) (context : Context T)
    (query_object : QueryObject T) (color_image : ImageRgba8U) :
  geometry_query context = Some query_object ->
  let core := ColorRenderCamera.core (color_camera_ self) in
  let intrinsics := RenderCameraCore.intrinsics core in
  let simple_camera :=
    CameraProperties.Make (width intrinsics) (height intrinsics)
      (fov_y intrinsics) (RenderCameraCore.renderer_name core) in
  let X_PC := X_PB_ self * RenderCameraCore.sensor_pose_in_camera_body core in
  let show := ColorRenderCamera.show_window (color_camera_ self) in
  CalcColorImage self context color_image =
    MkRun
      [ReadInputPort "geometry_query";
       CallRenderColorImage simple_camera (parent_frame_id_ self) X_PC show]
      (RenderColorImage query_object simple_camera (parent_frame_id_ self)
         X_PC show color_image) /\
  (parent_frame_id_ self = world_frame_id ->
   ComputeBodyWorldPose (parent_frame_id_ self) (X_PB_ self) query_object =
     Ok (X_PB_ self)).
Proof.
  intros Hq. cbv zeta. split.
  - unfold CalcColorImage, get_query_object, query_object_input_port_Eval, call.
    rewrite Hq. reflexivity.
  - intros Hw. unfold ComputeBodyWorldPose.
    destruct (decide _); [reflexivity | contradiction].
Qed.

(** C2.  The world-pose output is the translation and the quaternion of
    [X_WB], where [X_WB] is the fixed parent-to-body transform when the
    parent frame is the world frame (no call is made, whatever the
    context), and otherwise the world pose of the parent frame, fetched
    from the connected query object, composed with it: the body world pose
    of the frame pipeline. *)
Theorem CalcX_WB_pose (self : RgbdSensor T) (context : Context T)
    (pose_vector : PoseVector T) :
  let pose X :=
    {| get_translation := translation X;
       get_rotation := rotation_ToQuaternion X |} in
  (parent_frame_id_ self = world_frame_id ->
   CalcX_WB self context pose_vector = MkRun [] (Ok (pose (X_PB_ self)))) /\
  (parent_frame_id_ self <> world_frame_id ->
   forall query_object, geometry_query context = Some query_object ->
     CalcX_WB self context pose_vector =
       MkRun
         [ReadInputPort "geometry_query"; CallX_WF (parent_frame_id_ self)]
         (X_WP ← X_WF query_object (parent_frame_id_ self);
          Ok (pose (X_WP * X_PB_ self)))) /\
  (forall query_object, geometry_query context = Some query_object ->
     outcome (CalcX_WB self context pose_vector) =
       (X_WB ← ComputeBodyWorldPose (parent_frame_id_ self) (X_PB_ self)
                 query_object;
        Ok (pose X_WB))).
Proof.
  cbv zeta.
  unfold CalcX_WB, ComputeBodyWorldPose, get_query_object,
    query_object_input_port_Eval, call, set_pose.
  repeat split.
  - intros Hw. destruct (decide _); [reflexivity | contradiction].
  - intros Hw q Hq. destruct (decide _); [contradiction|].
    rewrite Hq. cbn. destruct (X_WF q (parent_frame_id_ self)); reflexivity.
  - intros q Hq. destruct (decide _); [reflexivity|].
    rewrite Hq. cbn. destruct (X_WF q (parent_frame_id_ self)); reflexivity.
Qed.

(** C4.  When the renderer's depth image does not depend on what the
    buffer it fills held before, the 16-bit depth output is the depth
    quantizer applied to the 32-bit depth output of the same context,
    written into the 16-bit output buffer; both outputs come with the same
    calls. *)
Theorem CalcDepthImage16U_converts_32F (self : RgbdSensor T)
    (context : Context T) (depth32 : ImageDepth32F) (depth16 : ImageDepth16U) :
  Image.width depth32 = Image.width depth16 ->
  Image.height depth32 = Image.height depth16 ->
  (forall query_object camera parent X_PC buffer buffer',
     geometry_query context = Some query_object ->
     Image.width buffer = Image.width buffer' ->
     Image.height buffer = Image.height buffer' ->
     RenderDepthImage query_object camera parent X_PC buffer =
     RenderDepthImage query_object camera parent X_PC buffer') ->
  CalcDepthImage16U self context depth16 =
    (image ← CalcDepthImage32F self context depth32;
     MkRun []
       (match ConvertDepth32FTo16U image depth16 with
        | Some d16 => Ok d16
        | None => Throw UndefinedConversion
        end)).
Proof.
  intros Hw Hh Hdet.
  unfold CalcDepthImage16U, CalcDepthImage32F, get_query_object,
    query_object_input_port_Eval, call.
  destruct (geometry_query context) as [q|] eqn:Hq; [|reflexivity].
  cbn.
  rewrite (Hdet q _ _ _
             (Image.new (Fin 0) (Image.width depth16) (Image.height depth16))
             depth32 eq_refl);
    [reflexivity | cbn; congruence | cbn; congruence].
Qed.

(** C10.  On the world frame the world-pose output makes no call at all,
    so it does not evaluate the query input port and returns the pose of
    [X_PB] in every context, the unconnected one included.  With the input
    unconnected, each image output fails with the missing-input error, and
    so does the world-pose output of a sensor on any other frame. *)
Theorem CalcX_WB_needs_no_query (self : RgbdSensor T) (context : Context T)
    (pose_vector : PoseVector T) (color_image : ImageRgba8U)
    (depth32 : ImageDepth32F) (depth16 : ImageDepth16U)
    (label_image : ImageLabel16I) :
  let missing A : Outcome A := Throw (InputPortNotConnected "geometry_query") in
  (parent_frame_id_ self = world_frame_id ->
   calls (CalcX_WB self context pose_vector) = [] /\
   outcome (CalcX_WB self context pose_vector) =
     Ok {| get_translation := translation (X_PB_ self);
           get_rotation := rotation_ToQuaternion (X_PB_ self) |}) /\
  (geometry_query context = None ->
   outcome (CalcColorImage self context color_image) = missing _ /\
   outcome (CalcDepthImage32F self context depth32) = missing _ /\
   outcome (CalcDepthImage16U self context depth16) = missing _ /\
   outcome (CalcLabelImage self context label_image) = missing _ /\
   (parent_frame_id_ self <> world_frame_id ->
    outcome (CalcX_WB self context pose_vector) = missing _)).
Proof.
  cbv zeta. split.
  - intros Hw. unfold CalcX_WB. destruct (decide _); [|contradiction].
    split; reflexivity.
  - intros Hq.
    unfold CalcColorImage, CalcDepthImage16U, CalcDepthImage32F, CalcLabelImage,
      CalcX_WB, get_query_object, query_object_input_port_Eval, call.
    rewrite Hq. repeat split.
    intros Hw. destruct (decide _); [contradiction | reflexivity].
Qed.

End SensorFacts.

(** The sensor of [Sample] on the world frame, its query input connected. *)
Lemma CalcColorImage_render_call_witness :
  geometry_query Sample.connected = Some Sample.query_object /\
  CalcColorImage Sample.world_sensor Sample.connected Sample.color_buffer =
    MkRun
      [ReadInputPort "geometry_query";
       CallRenderColorImage
         (CameraProperties.Make 4 2 (Fin (4 # 5)) "renderer") 0 (0, 0, 7) false]
      (Ok Sample.color_buffer).
Proof.
  split; [reflexivity|].
  exact (proj1 (CalcColorImage_render_call Sample.world_sensor Sample.connected
                  Sample.query_object Sample.color_buffer eq_refl)).
Defined.

(** C1, as stated, fails for a sensor on frame 1, which sits one unit
    along x: the body's world pose is [(1, 0, 0)], yet the pose handed to
    the renderer is the parent-frame pose [(0, 0, 0)], and no render call
    receives the world pose composed with the sensor offset. *)
Lemma CalcColorImage_pose_not_world :
  let self := Sample.frame1_sensor in
  let X_BC :=
    RenderCameraCore.sensor_pose_in_camera_body
      (ColorRenderCamera.core (color_camera_ self)) in
  ComputeBodyWorldPose (parent_frame_id_ self) (X_PB_ self) Sample.query_object
    = Ok ((1, 0, 0) : Sample.Shift) /\
  calls (CalcColorImage self Sample.connected Sample.color_buffer) =
    [ReadInputPort "geometry_query";
     CallRenderColorImage
       (CameraProperties.Make 4 2 (Fin (4 # 5)) "renderer") 1 (0, 0, 0) false] /\
  ~ (exists camera show,
       In (CallRenderColorImage camera (parent_frame_id_ self)
             (compose ((1, 0, 0) : Sample.Shift) X_BC) show)
          (calls (CalcColorImage self Sample.connected Sample.color_buffer))).
Proof.
  cbv zeta. split; [reflexivity|]. split; [reflexivity|].
  intros (camera & show & Hin). cbn in Hin.
  destruct Hin as [Hin|[Hin|[]]]; discriminate.
Qed.

Lemma CalcX_WB_pose_witness :
  parent_frame_id_ Sample.frame1_sensor <> world_frame_id /\
  geometry_query Sample.connected = Some Sample.query_object /\
  CalcX_WB Sample.frame1_sensor Sample.connected Sample.pose_buffer =
    MkRun [ReadInputPort "geometry_query"; CallX_WF 1]
      (Ok {| get_translation := ((1, 0, 0) : Translation3d);
             get_rotation := (tt : Quaterniond) |}).
Proof.
  assert (Hne : parent_frame_id_ Sample.frame1_sensor <> world_frame_id)
    by discriminate.
  split; [exact Hne|]. split; [reflexivity|].
  exact (proj1 (proj2 (CalcX_WB_pose Sample.frame1_sensor Sample.connected
                         Sample.pose_buffer))
           Hne Sample.query_object eq_refl).
Defined.

Lemma CalcDepthImage16U_converts_32F_witness :
  Image.width Sample.depth32_buffer = Image.width Sample.depth16_buffer /\
  Image.height Sample.depth32_buffer = Image.height Sample.depth16_buffer /\
  outcome (CalcDepthImage32F Sample.world_sensor Sample.connected
             Sample.depth32_buffer) =
    Ok (Image.Make 4 2 (replicate 8 (Fin (57 # 8)))) /\
  CalcDepthImage16U Sample.world_sensor Sample.connected Sample.depth16_buffer =
    (image ← CalcDepthImage32F Sample.world_sensor Sample.connected
               Sample.depth32_buffer;
     MkRun []
       (match ConvertDepth32FTo16U image Sample.depth16_buffer with
        | Some d16 => Ok d16
        | None => Throw UndefinedConversion
        end)).
Proof.
  split; [reflexivity|]. split; [reflexivity|]. split; [reflexivity|].
  apply (CalcDepthImage16U_converts_32F Sample.world_sensor Sample.connected
           Sample.depth32_buffer Sample.depth16_buffer eq_refl eq_refl).
  intros q camera parent X_PC buffer buffer' Hq Hw Hh.
  injection Hq as <-. cbn. now rewrite Hw, Hh.
Defined.

Lemma CalcX_WB_needs_no_query_witness :
  parent_frame_id_ Sample.world_sensor = world_frame_id /\
  geometry_query Sample.unconnected = None /\
  CalcX_WB Sample.world_sensor Sample.unconnected Sample.pose_buffer =
    MkRun []
      (Ok {| get_translation := ((0, 0, 7) : Translation3d);
             get_rotation := (tt : Quaterniond) |}) /\
  outcome (CalcColorImage Sample.world_sensor Sample.unconnected
             Sample.color_buffer) =
    Throw (InputPortNotConnected "geometry_query").
Proof.
  split; [reflexivity|]. split; [reflexivity|].
  pose proof (CalcX_WB_needs_no_query Sample.world_sensor Sample.unconnected
                Sample.pose_buffer Sample.color_buffer Sample.depth32_buffer
                Sample.depth16_buffer Sample.label_buffer) as [Hworld Himages].
  split.
  - destruct (Hworld eq_refl) as [Hcalls Hout].
    destruct (CalcX_WB Sample.world_sensor Sample.unconnected Sample.pose_buffer)
      as [c o].
    cbn in Hcalls, Hout. now rewrite Hcalls, Hout.
  - exact (proj1 (Himages eq_refl)).
Defined.

(** ** Construction diagnostics *)

Section IntrinsicsFacts.
Local Open Scope Q_scope.

Lemma representable64_small (m k : Z) (q : Q) :
  q == inject_Z m * pow2 k -> (Z.abs m < 2 ^ 53)%Z -> (-1074 <= k <= 0)%Z ->
  representable binary64 q.
Proof.
  intros Hq Hm Hk. exists m, k. cbn [prec emin emax binary64].
  split; [exact Hq|]. split; [exact Hm|]. split; [lia|].
  apply Qlt_le_trans with (pow2 (53 + k)).
  - apply (dyadic_bound q m k 53); [lia | exact Hq | exact Hm].
  - apply pow2_le. lia.
Qed.

Lemma eq_Fin_comp c p q : p == q -> eq c (Fin p) = eq c (Fin q).
Proof.
  intros E. destruct c as [| |x]; try reflexivity. cbn.
  destruct (Qeq_bool x p) eqn:E1; destruct (Qeq_bool x q) eqn:E2; try reflexivity.
  - apply Qeq_bool_iff in E1. apply Qeq_bool_false in E2.
    exfalso. apply E2. now rewrite E1.
  - apply Qeq_bool_iff in E2. apply Qeq_bool_false in E1.
    exfalso. apply E1. now rewrite E2.
Qed.

(** For an [int] size, [size / 2.0 + 0.5] is computed exactly. *)
Lemma off_center_exact center size :
  int_range size ->
  off_center center size =
  negb (eq center (Fin (inject_Z size / 2 + (1 # 2)))).
Proof.
  unfold int_range. intros Hs. unfold off_center, ne, of_Z. f_equal.
  rewrite (round_exact binary64 (inject_Z size)).
  2:{ cbn. lia. }
  2:{ apply (representable64_small size 0); [|lia|lia].
      change (pow2 0) with 1. ring. }
  cbn [div]. change (Qeq_bool 2 0) with false. cbv iota.
  rewrite (round_exact binary64 (Qred (inject_Z size) / 2)).
  2:{ cbn. lia. }
  2:{ apply (representable64_small size (-1)); [|lia|lia].
      rewrite Qred_correct. change (pow2 (-1)) with (1 # 2). field. }
  cbn [add].
  rewrite (round_exact binary64 (Qred (Qred (inject_Z size) / 2) + (1 # 2))).
  2:{ cbn. lia. }
  2:{ apply (representable64_small (size + 1) (-1)); [|lia|lia].
      rewrite !Qred_correct, inject_Z_plus.
      change (pow2 (-1)) with (1 # 2). change (inject_Z 1) with 1. field. }
  apply eq_Fin_comp. now rewrite !Qred_correct.
Qed.

Lemma complex_intrinsics_spec (color_intrinsics depth_intrinsics : CameraInfo) :
  int_range (width color_intrinsics) -> int_range (height color_intrinsics) ->
  int_range (width depth_intrinsics) -> int_range (height depth_intrinsics) ->
  complex_intrinsics color_intrinsics depth_intrinsics =
  negb (radially_symmetric_centered color_intrinsics &&
        radially_symmetric_centered depth_intrinsics).
Proof.
  intros H1 H2 H3 H4. unfold complex_intrinsics, radially_symmetric_centered.
  rewrite !off_center_exact by assumption. unfold ne.
  repeat match goal with |- context [eq ?a ?b] => destruct (eq a b) end;
    reflexivity.
Qed.

End IntrinsicsFacts.

Section ConstructionFacts.
Context {T : Type} `{DrakeLib T}.

(** C5.  For intrinsics whose sizes are C++ [int]s: when the color and the
    depth intrinsics both have equal focal lengths and the principal point
    at [(width / 2 + 0.5, height / 2 + 0.5)], the constructor logs no
    intrinsics warning; when either camera violates a condition it logs
    exactly one, carrying the focal lengths and the principal point of both
    cameras.  Either way the sensor is built, from the arguments given. *)
Theorem RgbdSensor_new_intrinsics_warning (parent_id : FrameId) (X_PB : T)
    (color_camera : ColorRenderCamera.t T)
    (depth_camera : DepthRenderCamera.t T) :
  let color_intrinsics :=
    RenderCameraCore.intrinsics (ColorRenderCamera.core color_camera) in
  let depth_intrinsics :=
    RenderCameraCore.intrinsics (DepthRenderCamera.core depth_camera) in
  let built := RgbdSensor_new parent_id X_PB color_camera depth_camera in
  int_range (width color_intrinsics) -> int_range (height color_intrinsics) ->
  int_range (width depth_intrinsics) -> int_range (height depth_intrinsics) ->
  (radially_symmetric_centered color_intrinsics = true ->
   radially_symmetric_centered depth_intrinsics = true ->
   List.filter is_WarnComplexCamera (snd built) = []) /\
  (radially_symmetric_centered color_intrinsics = false \/
   radially_symmetric_centered depth_intrinsics = false ->
   List.filter is_WarnComplexCamera (snd built) =
     [WarnComplexCamera
        (focal_x color_intrinsics) (focal_y color_intrinsics)
        (center_x color_intrinsics) (center_y color_intrinsics)
        (focal_x depth_intrinsics) (focal_y depth_intrinsics)
        (center_x depth_intrinsics) (center_y depth_intrinsics)]) /\
  parent_frame_id_ (fst built) = parent_id /\ X_PB_ (fst built) = X_PB /\
  color_camera_ (fst built) = color_camera /\
  depth_camera_ (fst built) = depth_camera.
Proof.
  cbv zeta. intros H1 H2 H3 H4. unfold RgbdSensor_new. cbn [fst snd].
  rewrite (complex_intrinsics_spec _ _ H1 H2 H3 H4).
  rewrite List.filter_app.
  assert (Hlog2 : forall b md k,
            List.filter is_WarnComplexCamera
              (if b : bool then [WarnMaxDepth md k] else []) = []).
  { intros [|] md k; reflexivity. }
  rewrite Hlog2, app_nil_r.
  split; [|split; [|repeat split]].
  - intros -> ->. reflexivity.
  - intros [-> | ->]; [|rewrite Bool.andb_false_r]; reflexivity.
Qed.

(** C6 (amended).  The constructor logs the saturation warning exactly
    when the depth camera's [max_depth] exceeds [kMaxValidDepth16UInM],
    which is the single-precision rounding of [(2^16 - 2)/1000], that is
    65.53399658203125: every [max_depth] above [(2^16 - 2)/1000] warns, a
    NaN does not.  The sensor is built either way. *)
Theorem RgbdSensor_new_max_depth_warning (parent_id : FrameId) (X_PB : T)
    (color_camera : ColorRenderCamera.t T)
    (depth_camera : DepthRenderCamera.t T) :
  let max_depth := max_depth (DepthRenderCamera.depth_range depth_camera) in
  let built := RgbdSensor_new parent_id X_PB color_camera depth_camera in
  let limit := Fin (1073709 # 16384) in
  kMaxValidDepth16UInM = limit /\
  List.filter is_WarnMaxDepth (snd built) =
    (if gt max_depth limit then [WarnMaxDepth max_depth limit] else []) /\
  (gt max_depth (Fin (65534 # 1000)) = true -> gt max_depth limit = true) /\
  depth_camera_ (fst built) = depth_camera.
Proof.
  cbv zeta.
  assert (Hk : kMaxValidDepth16UInM = Fin (1073709 # 16384))
    by (vm_compute; reflexivity).
  assert (Hk64 : convert binary64 (Fin (1073709 # 16384)) = Fin (1073709 # 16384))
    by (vm_compute; reflexivity).
  split; [exact Hk|]. unfold RgbdSensor_new. cbn [fst snd].
  rewrite Hk, Hk64, List.filter_app.
  assert (Hlog1 : forall (b : bool) d,
            List.filter is_WarnMaxDepth (if b then [d] else []) =
            if b then List.filter is_WarnMaxDepth [d] else []).
  { intros [|] d; reflexivity. }
  rewrite Hlog1. cbn [List.filter is_WarnMaxDepth].
  split; [|split; [|reflexivity]].
  - destruct (complex_intrinsics _ _); cbn [app];
      destruct (gt _ _); reflexivity.
  - destruct (max_depth (DepthRenderCamera.depth_range depth_camera))
      as [|[|]|q]; cbn; try congruence.
    rewrite !Bool.negb_true_iff, !Qle_bool_false.
    intros Hq. apply Qlt_trans with (65534 # 1000)%Q; [reflexivity | exact Hq].
Qed.

End ConstructionFacts.

Lemma RgbdSensor_new_intrinsics_warning_witness :
  let built :=
    RgbdSensor_new 0 ((0, 0, 0) : Sample.Shift) Sample.color_camera
      (DepthRenderCamera.Make
         (Sample.core Sample.skewed_intrinsics (0, 0, 0))
         {| min_depth := Fin (1 # 8); max_depth := Fin 5 |}) in
  (int_range 4 /\ int_range 2) /\
  radially_symmetric_centered Sample.intrinsics = true /\
  radially_symmetric_centered Sample.skewed_intrinsics = false /\
  List.filter is_WarnComplexCamera (snd built) =
    [WarnComplexCamera (Fin 3) (Fin 3) (Fin (5 # 2)) (Fin (3 # 2))
       (Fin 3) (Fin 4) (Fin (5 # 2)) (Fin (3 # 2))].
Proof.
  cbv zeta.
  assert (H4 : int_range 4) by (unfold int_range; lia).
  assert (H2 : int_range 2) by (unfold int_range; lia).
  split; [split; assumption|]. split; [reflexivity|]. split; [reflexivity|].
  refine (proj1 (proj2 (RgbdSensor_new_intrinsics_warning 0
    ((0, 0, 0) : Sample.Shift) Sample.color_camera
    (DepthRenderCamera.Make (Sample.core Sample.skewed_intrinsics (0, 0, 0))
       {| min_depth := Fin (1 # 8); max_depth := Fin 5 |})
    H4 H2 H4 H2)) _).
  right. reflexivity.
Defined.

Lemma RgbdSensor_new_max_depth_warning_witness :
  gt (Fin 100) (Fin (65534 # 1000)) = true /\
  gt (Fin 100) (Fin (1073709 # 16384)) = true.
Proof.
  split; [reflexivity|].
  exact (proj1 (proj2 (proj2 (RgbdSensor_new_max_depth_warning 0
    ((0, 0, 0) : Sample.Shift) Sample.color_camera
    (Sample.depth_camera (Fin 100))))) eq_refl).
Defined.

(** C6, as stated, fails: the double 65.53399753570557 (68717377 / 2^20)
    does not exceed (2^16 - 2)/1000 = 65.534, yet the constructor logs the
    saturation warning for it. *)
Lemma max_depth_warning_below_limit :
  let max_depth := Fin (68717377 # 1048576) in
  is_format binary64 max_depth /\
  gt max_depth (Fin (65534 # 1000)) = false /\
  List.filter is_WarnMaxDepth
    (snd (RgbdSensor_new 0 ((0, 0, 0) : Sample.Shift) Sample.color_camera
            (Sample.depth_camera max_depth))) =
    [WarnMaxDepth max_depth (Fin (1073709 # 16384))].
Proof.
  cbv zeta. split.
  { dyadic binary64 68717377 (-20). }
  split; vm_compute; reflexivity.
Qed.

(** ** The discrete sensor *)

Section DiscreteFacts.
Context {T : Type} `{DrakeLib T}.

(** C7.  With a period that is not strictly positive (zero, negative or a
    NaN) the constructor of the discrete sensor fails: the first hold it
    adds rejects the period, and no object is built. *)
Theorem RgbdSensorDiscrete_new_rejects_period (camera : RgbdSensor T)
    (period : fp) (render_label_image : bool) :
  gt period (Fin 0) = false ->
  RgbdSensorDiscrete_new camera period render_label_image =
    Throw (CollaboratorError "ZeroOrderHold: period_sec > 0").
Proof.
  intros Hp. unfold RgbdSensorDiscrete_new, RgbdSensorDiscrete_build.
  cbn. unfold ZeroOrderHold_new. rewrite Hp. reflexivity.
Qed.

(** C8.  With a strictly positive period the discrete sensor is built, and
    its diagram exports an output named "label_image" exactly when the
    label flag is set.  When it is, that output is the output of a
    zero-order hold fed by the sensor's "label_image" output; every hold of
    the diagram, those of the color and the two depth outputs included,
    has the period given to the constructor. *)
Theorem RgbdSensorDiscrete_new_label_port (camera : RgbdSensor T)
    (period : fp) (render_label_image : bool) :
  gt period (Fin 0) = true ->
  exists discrete,
    RgbdSensorDiscrete_new camera period render_label_image = Ok discrete /\
    (is_Some (exported_output discrete "label_image") <->
     render_label_image = true) /\
    (is_Some (output_port_label_image_ discrete) <->
     render_label_image = true) /\
    (render_label_image = true ->
     exists zoh model_value,
       exported_output discrete "label_image" = Some (HoldOutput zoh) /\
       systems (diagram discrete) !! zoh =
         Some (SystemZeroOrderHold period model_value) /\
       In (SensorOutput (camera_ discrete) "label_image", HoldInput zoh)
          (connections (diagram discrete))) /\
    (forall zoh period_sec model_value,
       systems (diagram discrete) !! zoh =
         Some (SystemZeroOrderHold period_sec model_value) ->
       period_sec = period) /\
    (exists color depth32 depth16 m1 m2 m3,
       exported_output discrete "color_image" = Some (HoldOutput color) /\
       exported_output discrete "depth_image_32f" = Some (HoldOutput depth32) /\
       exported_output discrete "depth_image_16u" = Some (HoldOutput depth16) /\
       systems (diagram discrete) !! color =
         Some (SystemZeroOrderHold period m1) /\
       systems (diagram discrete) !! depth32 =
         Some (SystemZeroOrderHold period m2) /\
       systems (diagram discrete) !! depth16 =
         Some (SystemZeroOrderHold period m3)).
Proof.
  intros Hp. unfold RgbdSensorDiscrete_new, RgbdSensorDiscrete_build.
  destruct render_label_image; cbn; unfold ZeroOrderHold_new; rewrite Hp; cbn;
    (eexists; split; [reflexivity|]); unfold exported_output; cbn.
  - split; [split; [reflexivity | intros _; eexists; reflexivity]|].
    split; [split; [reflexivity | intros _; eexists; reflexivity]|].
    split.
    { intros _. exists 4%nat. eexists. split; [reflexivity|].
      split; [reflexivity|]. cbn. tauto. }
    split.
    { intros [|[|[|[|[|zoh]]]]] p m; cbn; intros [=]; congruence. }
    exists 1%nat, 2%nat, 3%nat. do 3 eexists. repeat split; reflexivity.
  - split; [split; [intros [x Hx]; discriminate | discriminate]|].
    split; [split; [intros [x Hx]; discriminate | discriminate]|].
    split; [discriminate|].
    split.
    { intros [|[|[|[|zoh]]]] p m; cbn; intros [=]; congruence. }
    exists 1%nat, 2%nat, 3%nat. do 3 eexists. repeat split; reflexivity.
Qed.

End DiscreteFacts.

Lemma RgbdSensorDiscrete_new_rejects_period_witness :
  gt (Fin 0) (Fin 0) = false /\
  RgbdSensorDiscrete_new Sample.world_sensor (Fin 0) true =
    Throw (CollaboratorError "ZeroOrderHold: period_sec > 0").
Proof.
  split; [reflexivity|].
  exact (RgbdSensorDiscrete_new_rejects_period Sample.world_sensor (Fin 0) true
           eq_refl).
Defined.

Example RgbdSensorDiscrete_new_rejects_nan :
  RgbdSensorDiscrete_new Sample.world_sensor NaN false =
    Throw (CollaboratorError "ZeroOrderHold: period_sec > 0").
Proof. reflexivity. Qed.

Lemma RgbdSensorDiscrete_new_label_port_witness :
  gt (Fin (1 # 30)) (Fin 0) = true /\
  exists discrete,
    RgbdSensorDiscrete_new Sample.world_sensor (Fin (1 # 30)) false =
      Ok discrete /\
    (is_Some (exported_output discrete "label_image") <-> false = true) /\
    (is_Some (output_port_label_image_ discrete) <-> false = true).
Proof.
  split; [reflexivity|].
  destruct (RgbdSensorDiscrete_new_label_port Sample.world_sensor
              (Fin (1 # 30)) false eq_refl)
    as (discrete & Hnew & Hlabel & Hmember & _).
  exists discrete. split; [exact Hnew|]. split; assumption.
Defined.

Example RgbdSensorDiscrete_new_without_label :
  (exported_outputs ∘ diagram) <$>
    (RgbdSensorDiscrete_new Sample.world_sensor (Fin (1 # 30)) false) =
  Ok [("color_image"%string, HoldOutput 1);
      ("depth_image_32f"%string, HoldOutput 2);
      ("depth_image_16u"%string, HoldOutput 3);
      ("X_WB"%string, SensorOutput 0 "X_WB")].
Proof. vm_compute. reflexivity. Qed.

(** * Further properties of the sensor *)

(** ** The conversion as a pixel-wise map *)

Section ImageIndexFacts.
Context {P : Type}.
Implicit Types (img : Image.t P).

Lemma at_lookup img x y p :
  Image.at_ img x y = Some p ->
  0 <= x < Image.width img /\ 0 <= y < Image.height img /\
  Image.data img !! Z.to_nat (x + y * Image.width img) = Some p.
Proof.
  unfold Image.at_, Image.index. intros Hat.
  destruct (Z.leb_spec 0 x); [|discriminate].
  destruct (Z.ltb_spec x (Image.width img)); [|discriminate].
  destruct (Z.leb_spec 0 y); [|discriminate].
  destruct (Z.ltb_spec y (Image.height img)); [|discriminate].
  cbn in Hat. repeat split; try lia. exact Hat.
Qed.

(** Every stored pixel sits at a position of the image. *)
Lemma lookup_position img (i : nat) :
  Image.wf img -> (i < length (Image.data img))%nat ->
  exists x y,
    0 <= x < Image.width img /\ 0 <= y < Image.height img /\
    Z.to_nat (x + y * Image.width img) = i.
Proof.
  intros (Hw & Hh & Hlen) Hi. rewrite Hlen in Hi.
  assert (HW : 0 < Image.width img) by nia.
  exists (Z.of_nat i mod Image.width img), (Z.of_nat i / Image.width img).
  pose proof (Z.mod_pos_bound (Z.of_nat i) _ HW) as Hmod.
  pose proof (Z.div_mod (Z.of_nat i) (Image.width img)) as Hdm.
  assert (Hq : 0 <= Z.of_nat i / Image.width img) by (apply Z.div_pos; lia).
  split; [lia|]. split.
  - split; [exact Hq|]. apply Z.div_lt_upper_bound; [lia|]. nia.
  - rewrite <- (Nat2Z.id i) at 3. f_equal. lia.
Qed.

End ImageIndexFacts.

(** The loops as a map; the statement of X1, kept as a lemma for reuse. *)
Lemma convert_map (d32 : ImageDepth32F) (d16 : ImageDepth16U) :
  Image.wf d32 -> Image.wf d16 ->
  Image.width d16 = Image.width d32 -> Image.height d16 = Image.height d32 ->
  ConvertDepth32FTo16U d32 d16 =
    (pixels ← mapM Depth32FTo16U_pixel (Image.data d32);
     Some (Image.Make (Image.width d16) (Image.height d16) pixels)).
Proof.
  intros wf32 wf16 Ew Eh.
  pose proof (convert_loop_inv d32 d16 wf32 wf16 Ew Eh) as Hinv.
  destruct (ConvertDepth32FTo16U d32 d16) as [out|]; cbn [loop_inv] in Hinv.
  - destruct Hinv as (Hw & Hh & Hl & Hpx).
    assert (Hmap : mapM Depth32FTo16U_pixel (Image.data d32) =
                   Some (Image.data out)).
    { apply mapM_Some_2, Forall2_same_length_lookup_2.
      - destruct wf32 as (_ & _ & L32). destruct wf16 as (_ & _ & L16).
        rewrite Hl, L16, L32, Ew, Eh. reflexivity.
      - intros i p mm Hp Hmm.
        destruct (lookup_position d32 i wf32) as (x & y & Hx & Hy & Hi).
        { eapply lookup_lt_Some. exact Hp. }
        destruct (Hpx x y) as [Hvis _]; [lia | lia |].
        destruct Hvis as (p' & mm' & Hat32 & Hconv & Hat16).
        { unfold visited. lia. }
        apply at_lookup in Hat32. destruct Hat32 as (_ & _ & Hat32).
        apply at_lookup in Hat16. destruct Hat16 as (_ & _ & Hat16).
        rewrite Hw, Ew in Hat16. rewrite Hi in Hat32, Hat16. congruence. }
    rewrite Hmap. cbn. destruct out as [w h l]. cbn in *. now subst.
  - destruct Hinv as (x & y & p & Hx & Hy & _ & Hat & Hnone).
    apply at_lookup in Hat. destruct Hat as (_ & _ & Hat).
    rewrite (mapM_None_2 Depth32FTo16U_pixel (Image.data d32)); [reflexivity|].
    apply Exists_exists. exists p. split; [|exact Hnone].
    eapply list_elem_of_lookup_2. exact Hat.
Qed.

(** X1.  On well-formed images of equal dimensions the two nested loops of
    [ConvertDepth32FTo16U] compute the pixel-wise map of the source: the
    destination keeps its dimensions, every one of its pixels is
    overwritten, so what it held before plays no role, and the conversion
    is undefined exactly when some source pixel has no 16-bit value. *)
Theorem ConvertDepth32FTo16U_is_map (d32 : ImageDepth32F) (d16 : ImageDepth16U) :
  Image.wf d32 -> Image.wf d16 ->
  Image.width d16 = Image.width d32 -> Image.height d16 = Image.height d32 ->
  ConvertDepth32FTo16U d32 d16 =
    (pixels ← mapM Depth32FTo16U_pixel (Image.data d32);
     Some (Image.Make (Image.width d16) (Image.height d16) pixels)).
Proof. exact (convert_map d32 d16). Qed.

Lemma ConvertDepth32FTo16U_is_map_witness :
  Image.wf Sample.depth_image /\ Image.wf (Image.Make 2 1 [7; 9]) /\
  ConvertDepth32FTo16U Sample.depth_image (Image.Make 2 1 [7; 9]) =
    (pixels ← mapM Depth32FTo16U_pixel (Image.data Sample.depth_image);
     Some (Image.Make 2 1 pixels)).
Proof.
  assert (Hwf32 : Image.wf Sample.depth_image) by (repeat split; cbn; lia).
  assert (Hwf16 : Image.wf (Image.Make 2 1 [7; 9])) by (repeat split; cbn; lia).
  split; [exact Hwf32|]. split; [exact Hwf16|].
  exact (ConvertDepth32FTo16U_is_map Sample.depth_image (Image.Make 2 1 [7; 9])
           Hwf32 Hwf16 eq_refl eq_refl).
Defined.

(** ** Which depths have a 16-bit value *)

Section PixelFacts.
Local Open Scope Q_scope.

Lemma Qtrunc_above_minus_one q : -1 < q -> (0 <= Qtrunc q)%Z.
Proof.
  intros Hq. destruct (Qlt_le_dec q 0) as [Hneg|Hpos].
  - rewrite Qtrunc_nonpos by now apply Qlt_le_weak.
    pose proof (Qle_ceiling q) as Hc.
    assert (H1 : inject_Z (-1) < inject_Z (Qceiling q)).
    { change (inject_Z (-1)) with (-1). lra. }
    rewrite <- Zlt_Qlt in H1. lia.
  - change 0%Z with (Qtrunc 0). now apply Qtrunc_mono.
Qed.

(** The value the formula truncates: never beyond the ceiling in
    millimetres. *)
Lemma clamped_le q : Qmin q (65535 # 1000) * 1000 <= 65535.
Proof. pose proof (Q.le_min_r q (65535 # 1000)). lra. Qed.

(** The depths with a 16-bit value; the statement of X2, kept as a lemma
    for reuse. *)
Lemma pixel_defined_iff (pixel : fp) :
  is_format binary32 pixel ->
  (is_Some (Depth32FTo16U_pixel pixel) <-> lt (Fin (-1 # 1000)) pixel = true).
Proof.
  intros Hf. rewrite (pixel_spec pixel Hf).
  destruct pixel as [|[|]|p]; cbn [lt negb].
  - split; [intros [x Hx]; discriminate | discriminate].
  - split; [intros [x Hx]; discriminate | discriminate].
  - split; [reflexivity | intros _; eexists; vm_compute; reflexivity].
  - unfold quantize_spec. change ((2 ^ 16 - 1)%Z # 1000) with (65535 # 1000).
    set (v := Qmin p (65535 # 1000) * 1000).
    pose proof (clamped_le p) as Hhi. fold v in Hhi.
    rewrite Bool.negb_true_iff, Qle_bool_false. split.
    + intros [mm Hmm]. apply to_uint16_range in Hmm as Hrange.
      unfold to_uint16 in Hmm. destruct (_ && _) eqn:E; [|discriminate].
      injection Hmm as Hmm.
      destruct (Qlt_le_dec (-1 # 1000) p) as [H|H]; [exact H|exfalso].
      assert (Hv : v <= -1).
      { unfold v. rewrite Q.min_l by lra. lra. }
      apply Qtrunc_mono in Hv. change (Qtrunc (-1)) with (-1)%Z in Hv. lia.
    + intros Hp. exists (Qtrunc v). apply to_uint16_of_trunc; [reflexivity|].
      split.
      * apply Qtrunc_above_minus_one. unfold v.
        apply Q.min_case_strong; [intros x y E H; now rewrite <- E | lra | lra].
      * change 65535%Z with (Qtrunc 65535). now apply Qtrunc_mono.
Qed.

(** X2.  A binary32 depth converts to a 16-bit value exactly when it is
    greater than -0.001 (so is not a NaN): depths in (-0.001, 0) become 0,
    [+inf] saturates, and a NaN, [-inf] or a depth at or below one
    millimetre under zero leaves the conversion undefined. *)
Theorem Depth32FTo16U_pixel_defined (pixel : fp) :
  is_format binary32 pixel ->
  (is_Some (Depth32FTo16U_pixel pixel) <-> lt (Fin (-1 # 1000)) pixel = true).
Proof. exact (pixel_defined_iff pixel). Qed.

Lemma Depth32FTo16U_pixel_defined_witness :
  is_format binary32 (Fin (-1 # 2048)) /\
  Depth32FTo16U_pixel (Fin (-1 # 2048)) = Some 0%Z /\
  is_Some (Depth32FTo16U_pixel (Fin (-1 # 2048))).
Proof.
  assert (Hf : is_format binary32 (Fin (-1 # 2048))) by dyadic binary32 (-1)%Z (-11)%Z.
  split; [exact Hf|]. split; [vm_compute; reflexivity|].
  exact (proj2 (Depth32FTo16U_pixel_defined (Fin (-1 # 2048)) Hf) eq_refl).
Defined.

(** X3.  For a binary32 depth [p >= 0]: below the ceiling
    [(2^16 - 1)/1000] the millimetre count never overestimates the depth
    and is less than a millimetre under it ([mm <= 1000 p < mm + 1]); and
    the count is 65535 exactly when the depth is at or beyond the ceiling,
    so 65535 always means saturation. *)
Theorem Depth32FTo16U_pixel_error (p : Q) :
  representable binary32 p -> 0 <= p ->
  exists mm,
    Depth32FTo16U_pixel (Fin p) = Some mm /\
    (p < 65535 # 1000 -> inject_Z mm <= p * 1000 /\ p * 1000 < inject_Z mm + 1) /\
    (65535 # 1000 <= p <-> mm = 65535%Z).
Proof.
  intros Hf Hp. rewrite (pixel_spec (Fin p) Hf). unfold quantize_spec.
  change ((2 ^ 16 - 1)%Z # 1000) with (65535 # 1000).
  set (v := Qmin p (65535 # 1000) * 1000).
  pose proof (clamped_le p) as Hhi. fold v in Hhi.
  assert (Hlo : 0 <= v).
  { unfold v. assert (0 <= Qmin p (65535 # 1000)) by (apply Q.min_glb; lra). lra. }
  assert (Hrange : (0 <= Qtrunc v <= 65535)%Z).
  { split.
    - change 0%Z with (Qtrunc 0). now apply Qtrunc_mono.
    - change 65535%Z with (Qtrunc 65535). now apply Qtrunc_mono. }
  exists (Qtrunc v). split; [now apply to_uint16_of_trunc|].
  rewrite (Qtrunc_nonneg v Hlo) in *.
  pose proof (Qfloor_le v) as Hfl. pose proof (Qlt_floor v) as Hfu.
  rewrite inject_Z_plus in Hfu. change (inject_Z 1) with 1 in Hfu.
  split.
  - intros Hlt. assert (Ev : v == p * 1000).
    { unfold v. rewrite Q.min_l by lra. reflexivity. }
    rewrite <- Ev. split; assumption.
  - split.
    + intros Hge. assert (Ev : v == 65535).
      { unfold v. rewrite Q.min_r by exact Hge. reflexivity. }
      rewrite (Qfloor_comp _ _ Ev). reflexivity.
    + intros Hmm. destruct (Qlt_le_dec p (65535 # 1000)) as [Hlt|Hge]; [|exact Hge].
      exfalso. assert (Ev : v == p * 1000).
      { unfold v. rewrite Q.min_l by lra. reflexivity. }
      rewrite Hmm in Hfl. change (inject_Z 65535) with 65535 in Hfl. lra.
Qed.

Lemma Depth32FTo16U_pixel_error_witness :
  representable binary32 (3 # 2) /\ 0 <= 3 # 2 /\
  exists mm,
    Depth32FTo16U_pixel (Fin (3 # 2)) = Some mm /\
    (3 # 2 < 65535 # 1000 ->
     inject_Z mm <= (3 # 2) * 1000 /\ (3 # 2) * 1000 < inject_Z mm + 1) /\
    (65535 # 1000 <= 3 # 2 <-> mm = 65535%Z).
Proof.
  assert (Hf : representable binary32 (3 # 2)) by dyadic binary32 3%Z (-1)%Z.
  split; [exact Hf|]. split; [discriminate|].
  exact (Depth32FTo16U_pixel_error (3 # 2) Hf ltac:(discriminate)).
Defined.

End PixelFacts.

(** ** Requests and failures of the outputs *)

Section SensorRequests.
Context {T : Type} `{DrakeLib T}.
Local Open Scope transform_scope.

Ltac case_render :=
  match goal with
  | |- context [RenderDepthImage ?q ?c ?p ?X ?b] =>
      destruct (RenderDepthImage q c p X b)
  end.

Ltac case_pose :=
  match goal with
  | |- context [X_WF ?q ?f] => destruct (X_WF q f)
  end.

Ltac unfold_calc :=
  unfold CalcColorImage, CalcDepthImage16U, CalcDepthImage32F, CalcLabelImage,
    CalcX_WB, get_query_object, query_object_input_port_Eval, call.

(** X4.  The label image is requested exactly as the color image is: the
    calls of the label output are those of the color output with the
    render operation exchanged, so the camera properties, the parent
    frame, the pose and the show-window flag are the same, connected or
    not. *)
Theorem CalcLabelImage_requests_as_color (self : RgbdSensor T)
    (context : Context T) (color_image : ImageRgba8U)
    (label_image : ImageLabel16I) :
  calls (CalcLabelImage self context label_image) =
  List.map relabel (calls (CalcColorImage self context color_image)).
Proof.
  unfold_calc. destruct (geometry_query context) as [q|]; reflexivity.
Qed.

(** X5.  Each image output evaluates the query input port first, then
    makes at most one call, a render call, and never asks for the world
    pose of a frame; the world-pose output never renders and asks for at
    most one frame pose. *)
Theorem outputs_call_discipline (self : RgbdSensor T) (context : Context T)
    (color_image : ImageRgba8U) (depth32 : ImageDepth32F)
    (depth16 : ImageDepth16U) (label_image : ImageLabel16I)
    (pose_vector : PoseVector T) :
  let image_discipline (cs : list (Event T)) :=
    exists rest,
      cs = ReadInputPort "geometry_query" :: rest /\
      (length rest <= 1)%nat /\ forallb is_render rest = true in
  image_discipline (calls (CalcColorImage self context color_image)) /\
  image_discipline (calls (CalcDepthImage32F self context depth32)) /\
  image_discipline (calls (CalcDepthImage16U self context depth16)) /\
  image_discipline (calls (CalcLabelImage self context label_image)) /\
  forallb (fun ev => negb (is_render ev))
    (calls (CalcX_WB self context pose_vector)) = true /\
  (length (List.filter is_pose_query
             (calls (CalcX_WB self context pose_vector))) <= 1)%nat.
Proof.
  cbv zeta. unfold_calc.
  destruct (geometry_query context) as [q|]; cbn.
  - split; [eexists; repeat split; cbn; lia|].
    split; [eexists; repeat split; cbn; lia|].
    split.
    { case_render; cbn; eexists; repeat split; cbn; lia. }
    split; [eexists; repeat split; cbn; lia|].
    destruct (decide _); cbn; [split; [reflexivity | lia]|].
    case_pose; cbn; split; reflexivity || lia.
  - split; [eexists; repeat split; cbn; lia|].
    split; [eexists; repeat split; cbn; lia|].
    split; [eexists; repeat split; cbn; lia|].
    split; [eexists; repeat split; cbn; lia|].
    destruct (decide _); cbn; split; reflexivity || lia.
Qed.

(** X6.  A failure of the geometry query service reaches the caller as it
    is: when the render call an image output makes (with the camera
    properties, frame, pose and buffer it passes) fails with [e], so does
    the output; the 16-bit depth output fails with the same [e] when the
    render call on its fresh image does, and no conversion is attempted;
    on a frame other than the world frame, a failing pose lookup of the
    parent frame fails the world-pose output with the same [e].  What the
    service does for other arguments plays no role. *)
Theorem collaborator_failure_propagates (self : RgbdSensor T)
    (context : Context T) (query_object : QueryObject T) (e : Failure)
    (color_image : ImageRgba8U) (depth32 : ImageDepth32F)
    (depth16 : ImageDepth16U) (label_image : ImageLabel16I)
    (pose_vector : PoseVector T) :
  let parent := parent_frame_id_ self in
  let color_core := ColorRenderCamera.core (color_camera_ self) in
  let depth_core := DepthRenderCamera.core (depth_camera_ self) in
  let color_properties :=
    CameraProperties.Make
      (width (RenderCameraCore.intrinsics color_core))
      (height (RenderCameraCore.intrinsics color_core))
      (fov_y (RenderCameraCore.intrinsics color_core))
      (RenderCameraCore.renderer_name color_core) in
  let depth_properties :=
    DepthCameraProperties.Make
      (width (RenderCameraCore.intrinsics depth_core))
      (height (RenderCameraCore.intrinsics depth_core))
      (fov_y (RenderCameraCore.intrinsics depth_core))
      (RenderCameraCore.renderer_name depth_core)
      (min_depth (DepthRenderCamera.depth_range (depth_camera_ self)))
      (max_depth (DepthRenderCamera.depth_range (depth_camera_ self))) in
  let X_PC := X_PB_ self * RenderCameraCore.sensor_pose_in_camera_body color_core in
  let X_PD := X_PB_ self * RenderCameraCore.sensor_pose_in_camera_body depth_core in
  let show := ColorRenderCamera.show_window (color_camera_ self) in
  geometry_query context = Some query_object ->
  (RenderColorImage query_object color_properties parent X_PC show color_image
     = Throw e ->
   outcome (CalcColorImage self context color_image) = Throw e) /\
  (RenderDepthImage query_object depth_properties parent X_PD depth32
     = Throw e ->
   outcome (CalcDepthImage32F self context depth32) = Throw e) /\
  (RenderDepthImage query_object depth_properties parent X_PD
     (Image.new (Fin 0) (Image.width depth16) (Image.height depth16))
     = Throw e ->
   CalcDepthImage16U self context depth16 =
     MkRun
       [ReadInputPort "geometry_query";
        CallRenderDepthImage depth_properties parent X_PD]
       (Throw e)) /\
  (RenderLabelImage query_object color_properties parent X_PC show label_image
     = Throw e ->
   outcome (CalcLabelImage self context label_image) = Throw e) /\
  (parent <> world_frame_id ->
   X_WF query_object parent = Throw e ->
   outcome (CalcX_WB self context pose_vector) = Throw e).
Proof.
  cbv zeta. intros Hq. unfold_calc. rewrite Hq. cbn.
  split; [intros Hfail; exact Hfail|].
  split; [intros Hfail; exact Hfail|].
  split; [intros Hfail; rewrite Hfail; reflexivity|].
  split; [intros Hfail; exact Hfail|].
  intros Hw Hfail. destruct (decide _); [contradiction|].
  cbn. rewrite Hfail. reflexivity.
Qed.

(** X7.  The 16-bit depth output asks the geometry query service for
    exactly what the 32-bit output asks (the same calls, whatever the
    buffers), and hands the renderer a fresh, zeroed image of the
    dimensions of its own buffer; its result is the conversion of what the
    renderer returns for that image. *)
Theorem CalcDepthImage16U_requests (self : RgbdSensor T) (context : Context T)
    (depth32 : ImageDepth32F) (depth16 : ImageDepth16U) :
  calls (CalcDepthImage16U self context depth16) =
  calls (CalcDepthImage32F self context depth32) /\
  outcome (CalcDepthImage16U self context depth16) =
    (image ← outcome
               (CalcDepthImage32F self context
                  (Image.new (Fin 0) (Image.width depth16)
                     (Image.height depth16)));
     match ConvertDepth32FTo16U image depth16 with
     | Some d16 => Ok d16
     | None => Throw UndefinedConversion
     end).
Proof.
  unfold_calc. destruct (geometry_query context) as [q|]; cbn.
  - case_render; cbn; split; reflexivity.
  - split; reflexivity.
Qed.

End SensorRequests.

(** A service that knows every frame but frame 1: it fails for the sensor
    on frame 1 and serves the one on the world frame. *)
Lemma collaborator_failure_propagates_witness :
  let unknown : Failure := CollaboratorError "unknown frame" in
  let picky : QueryObject Sample.Shift := {|
    X_WF := fun f => if decide (f = 1) then Throw unknown else Ok (f, 0, 0);
    RenderColorImage := fun _ f _ _ img =>
      if decide (f = 1) then Throw unknown else Ok img;
    RenderDepthImage := fun _ f _ img =>
      if decide (f = 1) then Throw unknown else Ok img;
    RenderLabelImage := fun _ f _ _ img =>
      if decide (f = 1) then Throw unknown else Ok img
  |} in
  let context : Context Sample.Shift := {| geometry_query := Some picky |} in
  outcome (CalcDepthImage16U Sample.frame1_sensor context Sample.depth16_buffer)
    = Throw unknown /\
  outcome (CalcX_WB Sample.frame1_sensor context Sample.pose_buffer)
    = Throw unknown /\
  outcome (CalcDepthImage32F Sample.world_sensor context Sample.depth32_buffer)
    = Ok Sample.depth32_buffer.
Proof.
  intros unknown picky context.
  pose proof (collaborator_failure_propagates Sample.frame1_sensor context
                picky unknown Sample.color_buffer
                Sample.depth32_buffer Sample.depth16_buffer Sample.label_buffer
                Sample.pose_buffer eq_refl)
    as (_ & _ & Hdepth & _ & Hpose).
  split; [|split].
  - rewrite (Hdepth eq_refl). reflexivity.
  - apply Hpose; [discriminate | reflexivity].
  - reflexivity.
Defined.

(** ** Construction, declared buffers and the depth pipeline end to end *)

Section ConstructionMore.
Context {T : Type} `{DrakeLib T}.

Lemma kMaxValidDepth16UInM_value :
  convert binary64 kMaxValidDepth16UInM = Fin (1073709 # 16384).
Proof. vm_compute. reflexivity. Qed.

Lemma le_Fin (p q : Q) : le (Fin p) (Fin q) = true <-> (p <= q)%Q.
Proof.
  unfold le, lt. rewrite Bool.negb_involutive. apply Qle_bool_iff.
Qed.

Lemma gt_Fin_false (p q : Q) : gt (Fin p) (Fin q) = false <-> (p <= q)%Q.
Proof.
  unfold gt, lt. rewrite Bool.negb_false_iff. apply Qle_bool_iff.
Qed.

Lemma max_depth_log (parent_id : FrameId) (X_PB : T)
    (color_camera : ColorRenderCamera.t T)
    (depth_camera : DepthRenderCamera.t T) :
  List.filter is_WarnMaxDepth
    (snd (RgbdSensor_new parent_id X_PB color_camera depth_camera)) =
  if gt (max_depth (DepthRenderCamera.depth_range depth_camera))
       (Fin (1073709 # 16384))
  then [WarnMaxDepth (max_depth (DepthRenderCamera.depth_range depth_camera))
          kMaxValidDepth16UInM]
  else [].
Proof.
  unfold RgbdSensor_new. cbn [fst snd].
  rewrite kMaxValidDepth16UInM_value, List.filter_app.
  destruct (complex_intrinsics _ _); cbn [List.filter is_WarnMaxDepth app];
    destruct (gt _ _); reflexivity.
Qed.

Lemma complex_camera_log (parent_id : FrameId) (X_PB : T)
    (color_camera : ColorRenderCamera.t T)
    (depth_camera : DepthRenderCamera.t T) :
  snd (RgbdSensor_new parent_id X_PB color_camera depth_camera) =
  List.filter is_WarnComplexCamera
    (snd (RgbdSensor_new parent_id X_PB color_camera depth_camera)) ++
  List.filter is_WarnMaxDepth
    (snd (RgbdSensor_new parent_id X_PB color_camera depth_camera)).
Proof.
  unfold RgbdSensor_new. cbn [fst snd].
  destruct (complex_intrinsics _ _); destruct (gt _ _); reflexivity.
Qed.

(** X8.  What the constructor logs is at most one intrinsics warning
    followed by at most one saturation warning, in this order; for
    [int]-sized intrinsics it logs nothing at all exactly when both cameras
    are radially symmetric and centred and [max_depth] does not exceed
    65.53399658203125. *)
Theorem RgbdSensor_new_log (parent_id : FrameId) (X_PB : T)
    (color_camera : ColorRenderCamera.t T)
    (depth_camera : DepthRenderCamera.t T) :
  let color_intrinsics :=
    RenderCameraCore.intrinsics (ColorRenderCamera.core color_camera) in
  let depth_intrinsics :=
    RenderCameraCore.intrinsics (DepthRenderCamera.core depth_camera) in
  let log := snd (RgbdSensor_new parent_id X_PB color_camera depth_camera) in
  int_range (width color_intrinsics) -> int_range (height color_intrinsics) ->
  int_range (width depth_intrinsics) -> int_range (height depth_intrinsics) ->
  log = List.filter is_WarnComplexCamera log ++ List.filter is_WarnMaxDepth log /\
  (length (List.filter is_WarnComplexCamera log) <= 1)%nat /\
  (length (List.filter is_WarnMaxDepth log) <= 1)%nat /\
  (log = [] <->
   radially_symmetric_centered color_intrinsics = true /\
   radially_symmetric_centered depth_intrinsics = true /\
   gt (max_depth (DepthRenderCamera.depth_range depth_camera))
     (Fin (1073709 # 16384)) = false).
Proof.
  cbv zeta. intros H1 H2 H3 H4.
  split; [apply complex_camera_log|].
  pose proof (max_depth_log parent_id X_PB color_camera depth_camera) as Hmax.
  rewrite (complex_camera_log parent_id X_PB color_camera depth_camera) at 3.
  rewrite Hmax. clear Hmax.
  unfold RgbdSensor_new. cbn [fst snd]. rewrite List.filter_app.
  rewrite (complex_intrinsics_spec _ _ H1 H2 H3 H4).
  destruct (radially_symmetric_centered _), (radially_symmetric_centered _);
    cbn [negb andb List.filter is_WarnComplexCamera app length];
    destruct (gt (max_depth _) (convert binary64 _));
    destruct (gt (max_depth _) (Fin (1073709 # 16384)));
    cbn [List.filter is_WarnComplexCamera app length];
    (split; [lia|]); (split; [lia|]);
    (split; [intros; try discriminate; auto | intros (? & ? & ?); try discriminate; auto]).
Qed.

(** X9.  When the constructor logs no saturation warning, no depth within
    the camera's range saturates: every binary32 depth between 0 and
    [max_depth] converts to at most 65533 millimetres, never to the
    saturation value 65535. *)
Theorem no_warning_no_saturation (parent_id : FrameId) (X_PB : T)
    (color_camera : ColorRenderCamera.t T)
    (depth_camera : DepthRenderCamera.t T) (pixel : fp) :
  List.filter is_WarnMaxDepth
    (snd (RgbdSensor_new parent_id X_PB color_camera depth_camera)) = [] ->
  is_format binary32 pixel -> le (Fin 0) pixel = true ->
  le pixel (max_depth (DepthRenderCamera.depth_range depth_camera)) = true ->
  exists mm, Depth32FTo16U_pixel pixel = Some mm /\ 0 <= mm <= 65533.
Proof.
  rewrite max_depth_log.
  set (md := max_depth (DepthRenderCamera.depth_range depth_camera)).
  clearbody md. intros Hlog Hf H0 Hmax.
  destruct (gt _ _) eqn:Hgt; [discriminate|]. clear Hlog.
  destruct md as [|[|]|m], pixel as [|[|]|p];
    try (cbn in Hgt; discriminate); try (cbn in Hmax; discriminate);
    try (cbn in H0; discriminate).
  apply le_Fin in H0, Hmax. apply gt_Fin_false in Hgt.
  assert (Hp : (p <= 1073709 # 16384)%Q) by lra.
  rewrite (pixel_below p Hf) by lra.
  exists (Qtrunc (p * 1000)).
  assert (Hlo : 0 <= Qtrunc (p * 1000)).
  { change 0 with (Qtrunc 0). apply Qtrunc_mono. lra. }
  assert (Hhi : Qtrunc (p * 1000) <= 65533).
  { change 65533 with (Qtrunc ((1073709 # 16384) * 1000)).
    apply Qtrunc_mono. lra. }
  split; [apply to_uint16_of_trunc; [reflexivity | lia] | lia].
Qed.


End ConstructionMore.

Lemma RgbdSensor_new_log_witness :
  (int_range 4 /\ int_range 2) /\
  snd (RgbdSensor_new 0 ((0, 0, 0) : Sample.Shift) Sample.color_camera
         (Sample.depth_camera (Fin 5))) = [].
Proof.
  assert (H4 : int_range 4) by (unfold int_range; lia).
  assert (H2 : int_range 2) by (unfold int_range; lia).
  split; [split; assumption|].
  apply (proj2 (proj2 (proj2 (proj2 (RgbdSensor_new_log 0
    ((0, 0, 0) : Sample.Shift) Sample.color_camera
    (Sample.depth_camera (Fin 5)) H4 H2 H4 H2))))).
  repeat split; reflexivity.
Defined.

Lemma no_warning_no_saturation_witness :
  List.filter is_WarnMaxDepth
    (snd (RgbdSensor_new 0 ((0, 0, 0) : Sample.Shift) Sample.color_camera
            (Sample.depth_camera (Fin 5)))) = [] /\
  is_format binary32 (Fin (3 # 2)) /\
  le (Fin 0) (Fin (3 # 2)) = true /\ le (Fin (3 # 2)) (Fin 5) = true /\
  exists mm, Depth32FTo16U_pixel (Fin (3 # 2)) = Some mm /\ 0 <= mm <= 65533.
Proof.
  assert (Hlog : List.filter is_WarnMaxDepth
            (snd (RgbdSensor_new 0 ((0, 0, 0) : Sample.Shift)
                    Sample.color_camera (Sample.depth_camera (Fin 5)))) = [])
    by (vm_compute; reflexivity).
  assert (Hf : is_format binary32 (Fin (3 # 2))) by dyadic binary32 3 (-1).
  split; [exact Hlog|]. split; [exact Hf|].
  split; [reflexivity|]. split; [reflexivity|].
  exact (no_warning_no_saturation 0 ((0, 0, 0) : Sample.Shift)
           Sample.color_camera (Sample.depth_camera (Fin 5)) (Fin (3 # 2))
           Hlog Hf eq_refl eq_refl).
Defined.


(** ** The diagram of the discrete sensor *)

Section DiscreteMore.
Context {T : Type} `{DrakeLib T}.

(** The two diagrams the constructor can build. *)
Ltac discrete_cases Hnew period flag :=
  let Hp := fresh "Hp" in
  unfold RgbdSensorDiscrete_new, RgbdSensorDiscrete_build in Hnew;
  destruct (gt period (Fin 0)) eqn:Hp;
  [ destruct flag; cbn in Hnew; unfold ZeroOrderHold_new in Hnew;
    rewrite Hp in Hnew; cbn in Hnew; injection Hnew as <-
  | cbn in Hnew; unfold ZeroOrderHold_new in Hnew; rewrite Hp in Hnew;
    discriminate ].

(** X11.  A discrete sensor that was built wraps the given sensor with the
    given period, forwards its query input unchanged as the only exported
    input, and passes the world pose through unheld: the exported "X_WB"
    is the sensor's own output, and no hold is connected to it.  The port
    indices the object stores are the positions of the exported ports
    named after them, and no two exported outputs share a name. *)
Theorem RgbdSensorDiscrete_new_passthrough (camera : RgbdSensor T)
    (period : fp) (render_label_image : bool) (discrete : RgbdSensorDiscrete T) :
  RgbdSensorDiscrete_new camera period render_label_image = Ok discrete ->
  let d := diagram discrete in
  systems d !! camera_ discrete = Some (SystemRgbdSensor camera) /\
  period_ discrete = period /\
  exported_inputs d =
    [("geometry_query"%string, SensorQueryObjectInput (camera_ discrete))] /\
  exported_inputs d !! query_object_port_ discrete =
    Some ("geometry_query"%string, SensorQueryObjectInput (camera_ discrete)) /\
  exported_outputs d !! X_WB_output_port_ discrete =
    Some ("X_WB"%string, SensorOutput (camera_ discrete) "X_WB") /\
  (forall dest, ~ In (SensorOutput (camera_ discrete) "X_WB", dest) (connections d)) /\
  fst <$> exported_outputs d !! output_port_color_image_ discrete =
    Some "color_image"%string /\
  fst <$> exported_outputs d !! output_port_depth_image_32F_ discrete =
    Some "depth_image_32f"%string /\
  fst <$> exported_outputs d !! output_port_depth_image_16U_ discrete =
    Some "depth_image_16u"%string /\
  (forall i, output_port_label_image_ discrete = Some i ->
     fst <$> exported_outputs d !! i = Some "label_image"%string) /\
  NoDup (fst <$> exported_outputs d).
Proof.
  intros Hnew. discrete_cases Hnew period render_label_image; cbn.
  - repeat split; try reflexivity.
    + intros dest [Hin|[Hin|[Hin|[Hin|[]]]]]; discriminate.
    + intros i [= <-]. reflexivity.
    + apply (bool_decide_unpack _). vm_compute. exact I.
  - repeat split; try reflexivity.
    + intros dest [Hin|[Hin|[Hin|[]]]]; discriminate.
    + intros i [=].
    + apply (bool_decide_unpack _). vm_compute. exact I.
Qed.

(** X12.  In a discrete sensor that was built every connection leads from
    an output of the wrapped sensor to the input of a hold, every hold has
    the constructor's period, and the hold behind an exported output is
    fed by the sensor's output of the same name; besides the sensor the
    diagram holds three systems, or four with the label flag. *)
Theorem RgbdSensorDiscrete_new_wiring (camera : RgbdSensor T)
    (period : fp) (render_label_image : bool) (discrete : RgbdSensorDiscrete T) :
  RgbdSensorDiscrete_new camera period render_label_image = Ok discrete ->
  let d := diagram discrete in
  (forall name zoh,
     exported_output discrete name = Some (HoldOutput zoh) ->
     In (SensorOutput (camera_ discrete) name, HoldInput zoh) (connections d) /\
     exists model_value,
       systems d !! zoh = Some (SystemZeroOrderHold period model_value)) /\
  (forall src dest, In (src, dest) (connections d) ->
     exists name zoh,
       src = SensorOutput (camera_ discrete) name /\ dest = HoldInput zoh /\
       exported_output discrete name = Some (HoldOutput zoh)) /\
  length (systems d) = (if render_label_image then 5 else 4)%nat.
Proof.
  intros Hnew. discrete_cases Hnew period render_label_image;
    unfold exported_output; cbn.
  - split; [|split; [|reflexivity]].
    + intros name zoh.
      repeat (case_decide; subst; cbn);
        intros [= <-] || discriminate; split; eauto; cbn; tauto.
    + intros src dest [[= <- <-]|[[= <- <-]|[[= <- <-]|[[= <- <-]|[]]]]];
        do 2 eexists; repeat split; reflexivity.
  - split; [|split; [|reflexivity]].
    + intros name zoh.
      repeat (case_decide; subst; cbn);
        intros [= <-] || discriminate; split; eauto; cbn; tauto.
    + intros src dest [[= <- <-]|[[= <- <-]|[[= <- <-]|[]]]];
        do 2 eexists; repeat split; reflexivity.
Qed.

(** X13.  When the wrapped sensor was built by the sensor's constructor,
    each hold of the discrete sensor starts from the very buffer the
    sensor declared for the port it holds: the model value of the hold
    behind an exported output is the model value of the sensor's output
    port of the same name. *)
Theorem RgbdSensorDiscrete_new_hold_buffers (parent_id : FrameId) (X_PB : T)
    (color_camera : ColorRenderCamera.t T)
    (depth_camera : DepthRenderCamera.t T)
    (period : fp) (render_label_image : bool) (discrete : RgbdSensorDiscrete T)
    (name : string) (zoh : nat) (period_sec : fp) (model_value : AbstractValue T) :
  let camera := fst (RgbdSensor_new parent_id X_PB color_camera depth_camera) in
  RgbdSensorDiscrete_new camera period render_label_image = Ok discrete ->
  exported_output discrete name = Some (HoldOutput zoh) ->
  systems (diagram discrete) !! zoh =
    Some (SystemZeroOrderHold period_sec model_value) ->
  declared_model camera name = Some model_value.
Proof.
  cbv zeta. intros Hnew. discrete_cases Hnew period render_label_image;
    unfold exported_output, declared_model; cbn;
    repeat (case_decide; subst; cbn);
    try discriminate; intros [= <-]; cbn; intros [= <- <-]; reflexivity.
Qed.

End DiscreteMore.

Lemma RgbdSensorDiscrete_new_passthrough_witness :
  exists discrete,
    RgbdSensorDiscrete_new Sample.world_sensor (Fin (1 # 30)) true = Ok discrete /\
    exported_outputs (diagram discrete) !! X_WB_output_port_ discrete =
      Some ("X_WB"%string, SensorOutput (camera_ discrete) "X_WB") /\
    period_ discrete = Fin (1 # 30).
Proof.
  destruct (RgbdSensorDiscrete_new Sample.world_sensor (Fin (1 # 30)) true)
    as [discrete|e] eqn:Hnew.
  - exists discrete. split; [reflexivity|].
    pose proof (RgbdSensorDiscrete_new_passthrough Sample.world_sensor
                  (Fin (1 # 30)) true discrete Hnew)
      as (_ & Hperiod & _ & _ & Hpose & _).
    split; assumption.
  - exfalso. vm_compute in Hnew. discriminate.
Defined.

Lemma RgbdSensorDiscrete_new_wiring_witness :
  exists discrete,
    RgbdSensorDiscrete_new Sample.world_sensor (Fin (1 # 30)) true = Ok discrete /\
    length (systems (diagram discrete)) = 5%nat.
Proof.
  destruct (RgbdSensorDiscrete_new Sample.world_sensor (Fin (1 # 30)) true)
    as [discrete|e] eqn:Hnew.
  - exists discrete. split; [reflexivity|].
    exact (proj2 (proj2 (RgbdSensorDiscrete_new_wiring Sample.world_sensor
                           (Fin (1 # 30)) true discrete Hnew))).
  - exfalso. vm_compute in Hnew. discriminate.
Defined.

Lemma RgbdSensorDiscrete_new_hold_buffers_witness :
  exists discrete,
    RgbdSensorDiscrete_new Sample.world_sensor (Fin (1 # 30)) true = Ok discrete /\
    exported_output discrete "depth_image_16u" = Some (HoldOutput 3) /\
    systems (diagram discrete) !! 3%nat =
      Some (SystemZeroOrderHold (Fin (1 # 30))
              (ValueImageDepth16U (Image.new 0 4 2))) /\
    declared_model Sample.world_sensor "depth_image_16u" =
      Some (ValueImageDepth16U (Image.new 0 4 2)).
Proof.
  destruct (RgbdSensorDiscrete_new Sample.world_sensor (Fin (1 # 30)) true)
    as [discrete|e] eqn:Hnew.
  - assert (Hout : exported_output discrete "depth_image_16u" = Some (HoldOutput 3)).
    { vm_compute in Hnew. injection Hnew as <-. reflexivity. }
    assert (Hsys : systems (diagram discrete) !! 3%nat =
              Some (SystemZeroOrderHold (Fin (1 # 30))
                      (ValueImageDepth16U (Image.new 0 4 2)))).
    { vm_compute in Hnew. injection Hnew as <-. reflexivity. }
    exists discrete. split; [reflexivity|]. split; [exact Hout|].
    split; [exact Hsys|].
    exact (RgbdSensorDiscrete_new_hold_buffers 0 ((0, 0, 7) : Sample.Shift)
             Sample.color_camera (Sample.depth_camera (Fin 5)) (Fin (1 # 30))
             true discrete "depth_image_16u" 3 (Fin (1 # 30))
             (ValueImageDepth16U (Image.new 0 4 2)) Hnew Hout Hsys).
  - exfalso. vm_compute in Hnew. discriminate.
Defined.
